(** * Gegra-FtasAPI: the model-fallback requester and the three reply parsers

    A shallow embedding of [src/main.py]: [request_ai] with its list
    [top_models], [parse_questions], [parse_true_false_binary] and
    [parse_open_questions], together with the parts of the Python runtime
    they call ([str.strip], [str.split], [str.splitlines], [int], and
    [re.findall] for the two patterns of the file). *)

From Stdlib Require Import String Ascii List NArith ZArith Lia Bool.
Import ListNotations.

Set Implicit Arguments.

(* ================================================================== *)
(** ** Python values: exceptions, [str], and the [str] methods used     *)
(* ================================================================== *)

Module Py.

Local Open Scope N_scope.

(** The exceptions the modelled code can meet. *)
Inductive exn := IndexError | ValueError | UnicodeEncodeError.

(** A computation that returns a value or raises. *)
Inductive res (A : Type) : Type :=
| Ok (a : A)
| Raise (e : exn).
Arguments Ok {A} a.
Arguments Raise {A} e.

Definition bind {A B} (m : res A) (f : A -> res B) : res B :=
  match m with
  | Ok a => f a
  | Raise e => Raise e
  end.

Declare Scope py_scope.
Delimit Scope py_scope with py.
Notation "x <- m ;; k" := (bind m (fun x => k))
  (at level 61, m at next level, right associativity) : py_scope.

(** [try: body except e: handler]. *)
Definition try_except {A} (body : res A) (e : exn) (handler : res A) : res A :=
  match body with
  | Ok a => Ok a
  | Raise e' => match e, e' with
                | IndexError, IndexError | ValueError, ValueError
                | UnicodeEncodeError, UnicodeEncodeError => handler
                | _, _ => Raise e'
                end
  end.

(** A [str] is a sequence of Unicode code points. *)
Definition char := N.
Definition str := list char.

(** An ASCII literal of the source as a [str]. *)
Definition lit (s : string) : str := map N_of_ascii (list_ascii_of_string s).

Definition char_eqb : char -> char -> bool := N.eqb.

Fixpoint str_eqb (a b : str) : bool :=
  match a, b with
  | [], [] => true
  | x :: a', y :: b' => char_eqb x y && str_eqb a' b'
  | _, _ => false
  end.

Definition between (lo hi c : char) : bool := (lo <=? c) && (c <=? hi).

(** [str.isspace] on one code point, which is also what [\s] matches in a
    [str] pattern: the ASCII controls 9-13 and 28-31, the space, and the
    Unicode white space beyond ASCII. *)
Definition isspace (c : char) : bool :=
  between 9 13 c || between 28 32 c || char_eqb c 133 || char_eqb c 160
  || char_eqb c 5760 || between 8192 8202 c || char_eqb c 8232
  || char_eqb c 8233 || char_eqb c 8239 || char_eqb c 8287
  || char_eqb c 12288.

(** The line boundaries of [str.splitlines]. *)
Definition islinebreak (c : char) : bool :=
  between 10 13 c || between 28 30 c || char_eqb c 133
  || char_eqb c 8232 || char_eqb c 8233.

(** The code points of the digit zero of every decimal-digit block (general
    category Nd, Unicode 14.0 as in CPython 3.11); the nine code points
    after each one are its digits one to nine. *)
Definition decimal_zeros : list char :=
  [48; 1632; 1776; 1984; 2406; 2534; 2662; 2790; 2918; 3046; 3174; 3302;
   3430; 3558; 3664; 3792; 3872; 4160; 4240; 6112; 6160; 6470; 6608; 6784;
   6800; 6992; 7088; 7232; 7248; 42528; 43216; 43264; 43472; 43504; 43600;
   44016; 65296; 66720; 68912; 69734; 69872; 69942; 70096; 70384; 70736;
   70864; 71248; 71360; 71472; 71904; 72016; 72784; 73040; 73120; 92768;
   92864; 93008; 120782; 120792; 120802; 120812; 120822; 123200; 123632;
   125264; 130032].

(** The decimal value of a code point, when it is a decimal digit. *)
Definition todecimal (c : char) : option N :=
  match List.find (fun z => between z (z + 9) c) decimal_zeros with
  | Some z => Some (c - z)
  | None => None
  end.

(** What [\d] matches in a [str] pattern. *)
Definition isdecimal (c : char) : bool :=
  match todecimal c with Some _ => true | None => false end.

(** [s.lstrip()], [s.rstrip()], [s.strip()]. *)
Fixpoint lstrip (s : str) : str :=
  match s with
  | [] => []
  | c :: s' => if isspace c then lstrip s' else s
  end.

Definition rstrip (s : str) : str := rev (lstrip (rev s)).

Definition strip (s : str) : str := rstrip (lstrip s).

(** [s.startswith(p)], and the rest of [s] after [p]. *)
Fixpoint removeprefix (p s : str) : option str :=
  match p, s with
  | [], _ => Some s
  | x :: p', y :: s' => if char_eqb x y then removeprefix p' s' else None
  | _ :: _, [] => None
  end.

Definition startswith (p s : str) : bool :=
  match removeprefix p s with Some _ => true | None => false end.

(** [s.find(sub)]: the lowest index where [sub] occurs, [None] for -1. *)
Fixpoint find (sub s : str) {struct s} : option nat :=
  if startswith sub s then Some 0%nat
  else match s with
       | [] => None
       | _ :: s' => option_map S (find sub s')
       end.

(** The loop of [s.split(sep)]: cut at the first occurrence of [sep], go on
    behind it.  Every round removes at least [len(sep)] characters, so
    [len(s)] rounds are enough ([PyFacts.split_loop_fuel]). *)
Fixpoint split_loop (fuel : nat) (sep s : str) : list str :=
  match find sep s with
  | None => [s]
  | Some i =>
      match fuel with
      | O => [s]
      | S fuel' =>
          firstn i s :: split_loop fuel' sep (skipn (i + length sep)%nat s)
      end
  end.

(** [s.split(sep)]; an empty separator is a [ValueError]. *)
Definition split (sep s : str) : res (list str) :=
  match sep with
  | [] => Raise ValueError
  | _ :: _ => Ok (split_loop (length s) sep s)
  end.

(** [l[i]] on a list or tuple, for [i >= 0]. *)
Definition getitem {A} (l : list A) (i : nat) : res A :=
  match nth_error l i with
  | Some a => Ok a
  | None => Raise IndexError
  end.

(** [s.splitlines()]: lines without their boundaries; [\r\n] is one
    boundary, and a text that ends in a boundary has no empty last line. *)
Fixpoint splitlines_from (cur s : str) : list str :=
  match s with
  | [] => match cur with [] => [] | _ :: _ => [cur] end
  | c :: s' =>
      if islinebreak c then
        cur :: (if char_eqb c 13
                then match s' with
                     | c' :: s'' =>
                         if char_eqb c' 10 then splitlines_from [] s''
                         else splitlines_from [] s'
                     | [] => splitlines_from [] s'
                     end
                else splitlines_from [] s')
      else splitlines_from (cur ++ [c]) s'
  end.

Definition splitlines (s : str) : list str := splitlines_from [] s.

(** The digits of a decimal literal: decimal digits of any script, with
    single underscores between digits. *)
Fixpoint digits (acc : N) (after_digit : bool) (s : str) : option N :=
  match s with
  | [] => if after_digit then Some acc else None
  | c :: s' =>
      match todecimal c with
      | Some d => digits (10 * acc + d) true s'
      | None =>
          if char_eqb c 95 && after_digit then digits acc false s' else None
      end
  end.

(** [int(s)] for a [str]: white space around, an optional sign, digits. *)
Definition int (s : str) : res Z :=
  let of_digits (neg : bool) (t : str) :=
    match digits 0 false t with
    | Some n => Ok (if neg then (- Z.of_N n)%Z else Z.of_N n)
    | None => Raise ValueError
    end in
  match strip s with
  | [] => Raise ValueError
  | c :: t =>
      if char_eqb c 43 then of_digits false t
      else if char_eqb c 45 then of_digits true t
      else of_digits false (c :: t)
  end.

End Py.

Import Py.
Open Scope py_scope.

(* ================================================================== *)
(** ** The backtracking matcher of [re], for patterns like the source's  *)
(* ================================================================== *)

Module Re.

(** The pieces the two patterns of [main.py] are made of. *)
Inductive atom :=
| Literal (l : str)                  (* the text itself *)
| Category (p : char -> bool)        (* one character of a class: \d *)
| MaxRepeat (p : char -> bool)       (* greedy star of a class: \s* *)
| MinRepeat (p : char -> bool)       (* lazy star of a class: .*? *)
| Branch (alts : list str).          (* alternatives, tried in order: 1|0 *)

(** A piece, inside a capturing group or not. *)
Inductive item :=
| Plain (a : atom)
| Group (a : atom).

Definition pattern := list item.

(** [.] under [re.DOTALL]. *)
Definition any (c : char) : bool := true.

Section Atom.
Context {R : Type}.
(** What follows the atom in the pattern: called with the text the atom
    took and the text behind it. *)
Variable k : str -> str -> option R.

Definition literal (l s : str) : option R :=
  match removeprefix l s with
  | Some s' => k l s'
  | None => None
  end.

(** Take as many characters as the class allows, then give them back one
    at a time until what follows matches. *)
Fixpoint max_repeat (p : char -> bool) (taken s : str) : option R :=
  match s with
  | c :: s' =>
      if p c then
        match max_repeat p (taken ++ [c]) s' with
        | Some r => Some r
        | None => k taken s
        end
      else k taken s
  | [] => k taken s
  end.

(** Try what follows first, take one more character when it fails. *)
Fixpoint min_repeat (p : char -> bool) (taken s : str) : option R :=
  match k taken s with
  | Some r => Some r
  | None =>
      match s with
      | c :: s' => if p c then min_repeat p (taken ++ [c]) s' else None
      | [] => None
      end
  end.

Fixpoint branch (alts : list str) (s : str) : option R :=
  match alts with
  | [] => None
  | l :: alts' =>
      match literal l s with
      | Some r => Some r
      | None => branch alts' s
      end
  end.

Definition match_atom (a : atom) (s : str) : option R :=
  match a with
  | Literal l => literal l s
  | Category p => match s with
            | c :: s' => if p c then k [c] s' else None
            | [] => None
            end
  | MaxRepeat p => max_repeat p [] s
  | MinRepeat p => min_repeat p [] s
  | Branch alts => branch alts s
  end.
End Atom.

(** [pattern.match] at the start of [s]: the groups of the first way to
    match in the order the backtracking tries them, and the text behind the
    match. *)
Fixpoint match_here (pat : pattern) (groups : list str) (s : str)
  : option (list str * str) :=
  match pat with
  | [] => Some (groups, s)
  | Plain a :: pat' =>
      match_atom (fun _ s' => match_here pat' groups s') a s
  | Group a :: pat' =>
      match_atom (fun taken s' => match_here pat' (groups ++ [taken]) s') a s
  end.

(** [pattern.search]: the match at the leftmost position that has one. *)
Fixpoint search (pat : pattern) (s : str) : option (list str * str) :=
  match match_here pat [] s with
  | Some m => Some m
  | None =>
      match s with
      | [] => None
      | _ :: s' => search pat s'
      end
  end.

(** The loop of [pattern.findall]: search, keep the groups, go on behind the
    match.  The patterns here begin with a literal of six characters, so a
    match is never empty and [len(s)] rounds are enough
    ([ReFacts.findall_unfold]); the rule of [findall] for empty matches is
    not needed and not modelled. *)
Fixpoint findall_loop (fuel : nat) (pat : pattern) (s : str)
  : list (list str) :=
  match fuel with
  | O => []
  | S fuel' =>
      match search pat s with
      | None => []
      | Some (groups, rest) => groups :: findall_loop fuel' pat rest
      end
  end.

Definition findall (pat : pattern) (s : str) : list (list str) :=
  findall_loop (List.length s) pat s.

End Re.

Import Re.

(* ================================================================== *)
(** ** [src/main.py]                                                    *)
(* ================================================================== *)

(** *** The parsers *)

Definition Start : str := lit "Start:".
Definition End_ : str := lit "End:".
Definition OptionsStart : str := lit "OptionsStart:".
Definition OptionsEnd : str := lit "OptionsEnd:".
Definition answerStart : str := lit "answerStart:".
Definition answerEnd : str := lit "answerEnd:".

(** [Start:\s*(.*?)\s*End:\s*OptionsStart:\s*(.*?)\s*(\d)\s*OptionsEnd:]
    with [re.DOTALL]. *)
Definition questions_pattern : pattern :=
  [ Plain (Literal Start); Plain (MaxRepeat isspace); Group (MinRepeat any);
    Plain (MaxRepeat isspace); Plain (Literal End_);
    Plain (MaxRepeat isspace); Plain (Literal OptionsStart);
    Plain (MaxRepeat isspace); Group (MinRepeat any);
    Plain (MaxRepeat isspace); Group (Category isdecimal);
    Plain (MaxRepeat isspace); Plain (Literal OptionsEnd) ].

(** [Start:\s*(.*?)\s*End:\s*answerStart:\s*(1|0)\s*answerEnd:] with
    [re.DOTALL]. *)
Definition true_false_pattern : pattern :=
  [ Plain (Literal Start); Plain (MaxRepeat isspace); Group (MinRepeat any);
    Plain (MaxRepeat isspace); Plain (Literal End_);
    Plain (MaxRepeat isspace); Plain (Literal answerStart);
    Plain (MaxRepeat isspace); Group (Branch [lit "1"; lit "0"]);
    Plain (MaxRepeat isspace); Plain (Literal answerEnd) ].

(** The dict [{"question": .., "options": .., "correctOptionIndex": ..}]. *)
Record MultipleChoice := {
  question : str;
  options : list str;
  correctOptionIndex : Z
}.

(** The dict [{"question": .., "answer": ..}]. *)
Record TrueFalse := {
  tf_question : str;
  answer : Z
}.

(** [for x in xs: body], the body updating the list built so far. *)
Fixpoint for_each {A B} (xs : list A) (body : A -> list B -> res (list B))
  (acc : list B) : res (list B) :=
  match xs with
  | [] => Ok acc
  | x :: xs' => acc' <- body x acc ;; for_each xs' body acc'
  end.

(** [[opt.strip() for opt in options_text.splitlines() if opt.strip()]]. *)
Definition option_lines (options_text : str) : list str :=
  map strip
    (filter (fun opt => negb (str_eqb (strip opt) []))
       (splitlines options_text)).

(** The body of the loop of [parse_questions]; [Ok questions] unchanged is
    its [continue]. *)
Definition questions_body (match_ : list str)
  (questions : list MultipleChoice) : res (list MultipleChoice) :=
  m0 <- getitem match_ 0 ;;
  let question_text := strip m0 in
  m1 <- getitem match_ 1 ;;
  let options_text := strip m1 in
  m2 <- getitem match_ 2 ;;
  correct_index <- int m2 ;;
  let options := option_lines options_text in
  if negb (List.length options =? 4)%nat then Ok questions
  else Ok (questions ++ [ {| question := question_text;
                              options := options;
                              correctOptionIndex := correct_index |} ]).

Definition parse_questions (text : str) : res (list MultipleChoice) :=
  let matches := findall questions_pattern text in
  for_each matches questions_body [].

(** The body of the loop of [parse_open_questions]. *)
Definition open_body (part : str) (questions : list str) : res (list str) :=
  try_except
    (pieces <- split End_ part ;;
     piece <- getitem pieces 0 ;;
     let question_text := strip piece in
     Ok (questions ++ [question_text]))
    IndexError
    (Ok questions).

Definition parse_open_questions (raw_text : str) : res (list str) :=
  parts <- split Start raw_text ;;
  for_each (tl parts) open_body [].

(** The body of the loop of [parse_true_false_binary]. *)
Definition true_false_body (match_ : list str) (questions : list TrueFalse)
  : res (list TrueFalse) :=
  m0 <- getitem match_ 0 ;;
  let question_text := strip m0 in
  m1 <- getitem match_ 1 ;;
  answer_value <- int m1 ;;
  Ok (questions ++ [ {| tf_question := question_text;
                         answer := answer_value |} ]).

Definition parse_true_false_binary (raw_text : str) : res (list TrueFalse) :=
  let matches := findall true_false_pattern raw_text in
  for_each matches true_false_body [].

(** *** The requester *)

Definition top_models : list str :=
  map lit
    [ "gpt-4"; "gpt-4.1"; "gpt-4.1-mini"; "gpt-4.1-nano"; "gpt-4.5";
      "deepseek-v3"; "deepseek-r1"; "deepseek-r1-turbo"; "deepseek-v3-0324";
      "deepseek-v3-0324-turbo"; "deepseek-r1-0528"; "deepseek-r1-0528-turbo";
      "deepseek-r1-distill-llama-70b"; "deepseek-r1-distill-qwen-14b";
      "deepseek-r1-distill-qwen-32b"; "grok-3"; "grok-3-r1" ]%string.

(** The response object as far as [request_ai] looks into it: for every
    choice its [message.content], [None] when that is not a [str]. *)
Record ChatCompletion := { choices : list (option str) }.

(** How [await asyncio.wait_for(asyncio.to_thread(...), timeout=90)] ends. *)
Inductive outcome :=
| Returned (response : ChatCompletion)
| TimeoutError
| OtherException.

(** What lies outside the program: the provider behind [client], reached by
    [client.chat.completions.create(model=.., messages=[user prompt],
    temperature=0, web_search=False, stream=False)] under the timeout, and
    the clock behind [time.time()]. *)
Class Runtime := {
  World : Type;
  seconds : Type;
  minus : seconds -> seconds -> seconds;
  create : str -> str -> World -> outcome * World;
  time_time : World -> seconds * World
}.

Section Requester.
Context {RT : Runtime}.

(** The dict [{"model": .., "content": .., "time": ..}]. *)
Record ModelAttemptResult := {
  model : option str;
  content : str;
  time : option seconds
}.

(** One call the client received. *)
Record attempt := {
  called_model : str;
  called_prompt : str;
  ended : outcome
}.

(** The records handed to [logger]. *)
Inductive log_record :=
| InfoTrying (m : str)
| InfoReturned (m : str) (elapsed : seconds)
| WarningTimedOut (m : str) (elapsed : seconds)
| ErrorFailed (m : str) (elapsed : seconds)
| WarningNoModel.

Record state := {
  world : World;
  attempts : list attempt;       (* the calls made so far, oldest first *)
  logged : list log_record
}.

Definition initial (w : World) : state :=
  {| world := w; attempts := []; logged := [] |}.

Definition M (A : Type) : Type := state -> A * state.

Definition ret {A} (a : A) : M A := fun st => (a, st).

Definition seq {A B} (m : M A) (f : A -> M B) : M B :=
  fun st => let (a, st') := m st in f a st'.

Definition now : M seconds :=
  fun st =>
    let (t, w) := time_time (world st) in
    (t, {| world := w; attempts := attempts st; logged := logged st |}).

Definition chat_completions_create (m prompt : str) : M outcome :=
  fun st =>
    let (o, w) := create m prompt (world st) in
    (o, {| world := w;
           attempts := attempts st ++
             [ {| called_model := m; called_prompt := prompt; ended := o |} ];
           logged := logged st |}).

Definition log (r : log_record) : M unit :=
  fun st =>
    (tt, {| world := world st; attempts := attempts st;
            logged := logged st ++ [r] |}).

(** [response.choices[0].message.content.strip()]; [None] when one of the
    steps raises. *)
Definition stripped_content (response : ChatCompletion) : option str :=
  match choices response with
  | Some c :: _ => Some (strip c)
  | _ => None
  end.

Definition no_answer : str :=
  lit "Brak odpowiedzi od " ++ [380%N] ++ lit "adnego modelu.".

Local Notation "x <== m ; k" := (seq m (fun x => k))
  (at level 61, m at next level, right associativity).
Local Notation "m ;;; k" := (seq m (fun _ => k))
  (at level 61, right associativity).

(** The [for model in top_models] loop with what follows it. *)
Fixpoint request_loop (models : list str) (prompt : str)
  : M ModelAttemptResult :=
  match models with
  | [] =>
      log WarningNoModel ;;;
      ret {| model := None; content := no_answer; time := None |}
  | m :: models' =>
      log (InfoTrying m) ;;;
      start_time <== now ;
      o <== chat_completions_create m prompt ;
      match o with
      | Returned response =>
          t <== now ;
          let elapsed := minus t start_time in
          match stripped_content response with
          | Some c =>
              log (InfoReturned m elapsed) ;;;
              ret {| model := Some m; content := c; time := Some elapsed |}
          | None =>
              t' <== now ;
              log (ErrorFailed m (minus t' start_time)) ;;;
              request_loop models' prompt
          end
      | TimeoutError =>
          t <== now ;
          log (WarningTimedOut m (minus t start_time)) ;;;
          request_loop models' prompt
      | OtherException =>
          t <== now ;
          log (ErrorFailed m (minus t start_time)) ;;;
          request_loop models' prompt
      end
  end.

Definition request_ai (prompt : str) : M ModelAttemptResult :=
  request_loop top_models prompt.

(** A call that gave [request_ai] a content to return. *)
Definition succeeded (a : attempt) : option str :=
  match ended a with
  | Returned response => stripped_content response
  | _ => None
  end.

Definition failed (a : attempt) : Prop := succeeded a = None.
End Requester.

(** *** The prompts *)

(** The text of [prompt_question], 1013 characters. *)
Definition prompt_question : str :=
  [10%N] ++ lit "Stw" ++ [243%N] ++ lit "rz dok" ++ [322%N] ++
  lit "adnie 10 pyta" ++ [324%N] ++ lit " z geografii dla szko" ++ [322%N] ++
  lit "y " ++ [347%N] ++ lit "redniej, temat: " ++ [34%N] ++
  lit "Rolnictwo, le" ++ [347%N] ++ lit "nictwo, rybactwo" ++ [34%N] ++
  lit ".  " ++ [10%N] ++ lit "Ka" ++ [380%N] ++
  lit "de pytanie powinno losowo pochodzi" ++ [263%N] ++
  lit " z jednej z poni" ++ [380%N] ++ lit "szych podtemat" ++ [243%N] ++
  lit "w:" ++ [10%N] ++ lit "1. Czynniki rozwoju rolnictwa" ++ [10%N] ++
  lit "2. G" ++ [322%N; 243%N] ++ lit "wne obszary upraw" ++ [10%N] ++
  lit "3. Ch" ++ [243%N] ++ lit "w zwierz" ++ [261%N] ++ lit "t" ++ [10%N] ++
  lit "4. Lasy na Ziemi. Gospodarka le" ++ [347%N] ++ lit "na" ++ [10%N] ++
  lit "5. Rybactwo" ++ [10%N; 10%N] ++ lit "Odpowiedzi musz" ++ [261%N] ++
  lit " by" ++ [263%N] ++ lit " **dok" ++ [322%N] ++ lit "adnie** w poni" ++
  [380%N] ++ lit "szym formacie:" ++ [10%N; 10%N] ++ lit "Start:" ++
  [10%N] ++ lit "[Tutaj wstaw pytanie]" ++ [10%N] ++ lit "End:" ++ [10%N] ++
  lit "OptionsStart:" ++ [10%N] ++ lit "Option1" ++ [10%N] ++
  lit "Option2" ++ [10%N] ++ lit "Option3" ++ [10%N] ++ lit "Option4" ++
  [10%N] ++ lit "correctOptionIndex" ++ [10%N] ++ lit "OptionsEnd:" ++
  [10%N; 10%N] ++ lit "Instrukcje:" ++ [10%N] ++ lit "1. Wygeneruj dok" ++
  [322%N] ++ lit "adnie 10 oddzielnych pyta" ++ [324%N] ++ lit " w powy" ++
  [380%N] ++
  lit "szym formacie, jedno po drugim, bez dodatkowego tekstu m" ++
  lit "i" ++ [281%N] ++ lit "dzy nimi.  " ++ [10%N] ++ lit "2. Ka" ++
  [380%N] ++ lit "de pytanie musi mie" ++ [263%N] ++ lit " dok" ++ [322%N] ++
  lit "adnie 4 realistyczne, unikalne i sensowne odpowiedzi w k" ++
  lit "olejno" ++ [347%N] ++ lit "ci Option1" ++ [8211%N] ++
  lit "Option4.  " ++ [10%N] ++
  lit "3. correctOptionIndex to numer poprawnej odpowiedzi od 0" ++
  lit " do 3.  " ++ [10%N] ++ lit "4. Nie dodawaj " ++ [380%N] ++
  lit "adnych komentarzy ani wprowadze" ++ [324%N] ++ lit " " ++ [8211%N] ++
  lit " tylko 10 pyta" ++ [324%N] ++ lit " w dok" ++ [322%N] ++
  lit "adnym formacie Start/End oraz OptionsStart/OptionsEnd.  " ++ [10%N] ++
  lit "5. Pytania musz" ++ [261%N] ++ lit " by" ++ [263%N] ++ lit " powi" ++
  [261%N] ++ lit "zane z tematami podanymi powy" ++ [380%N] ++
  lit "ej, losowo wybieraj" ++ [261%N] ++ lit "c temat dla ka" ++ [380%N] ++
  lit "dego pytania." ++ [10%N].

(** The text of [prompt_true_false_binary], 839 characters. *)
Definition prompt_true_false_binary : str :=
  [10%N] ++ lit "Stw" ++ [243%N] ++ lit "rz dok" ++ [322%N] ++
  lit "adnie 10 pyta" ++ [324%N] ++ lit " typu Prawda/Fa" ++ [322%N] ++
  lit "sz z geografii dla szko" ++ [322%N] ++ lit "y " ++ [347%N] ++
  lit "redniej.  " ++ [10%N] ++ lit "Ka" ++ [380%N] ++
  lit "de pytanie powinno losowo pochodzi" ++ [263%N] ++
  lit " z jednej z poni" ++ [380%N] ++ lit "szych podtemat" ++ [243%N] ++
  lit "w:" ++ [10%N] ++ lit "1. Czynniki rozwoju rolnictwa" ++ [10%N] ++
  lit "2. G" ++ [322%N; 243%N] ++ lit "wne obszary upraw" ++ [10%N] ++
  lit "3. Ch" ++ [243%N] ++ lit "w zwierz" ++ [261%N] ++ lit "t" ++ [10%N] ++
  lit "4. Lasy na Ziemi. Gospodarka le" ++ [347%N] ++ lit "na" ++ [10%N] ++
  lit "5. Rybactwo" ++ [10%N; 10%N] ++ lit "Odpowiedzi musz" ++ [261%N] ++
  lit " by" ++ [263%N] ++ lit " **dok" ++ [322%N] ++ lit "adnie** w poni" ++
  [380%N] ++ lit "szym formacie i oznaczone 1 (prawda) lub 0 (fa" ++
  [322%N] ++ lit "sz):" ++ [10%N; 10%N] ++ lit "Start:" ++ [10%N] ++
  lit "[Tutaj pytanie Prawda/Fa" ++ [322%N] ++ lit "sz]" ++ [10%N] ++
  lit "End:" ++ [10%N] ++ lit "answerStart:" ++ [10%N] ++ lit "1" ++
  [10%N] ++ lit "answerEnd:" ++ [10%N; 10%N] ++ lit "Instrukcje:" ++
  [10%N] ++ lit "1. Wygeneruj dok" ++ [322%N] ++
  lit "adnie 10 oddzielnych pyta" ++ [324%N] ++ lit " w powy" ++ [380%N] ++
  lit "szym formacie, jedno po drugim.  " ++ [10%N] ++
  lit "2. Nie dodawaj komentarzy ani wprowadze" ++ [324%N] ++ lit " " ++
  [8211%N] ++ lit " tylko 10 pyta" ++ [324%N] ++ lit " w dok" ++ [322%N] ++
  lit "adnym formacie Start/End oraz answerStart/answerEnd.  " ++ [10%N] ++
  lit "3. Ka" ++ [380%N] ++ lit "da odpowied" ++ [378%N] ++
  lit " powinna by" ++ [263%N] ++
  lit " poprawnie oceniona jako 1 (prawda) lub 0 (fa" ++ [322%N] ++
  lit "sz).  " ++ [10%N] ++ lit "4. Pytania musz" ++ [261%N] ++ lit " by" ++
  [263%N] ++ lit " powi" ++ [261%N] ++ lit "zane z tematami podanymi powy" ++
  [380%N] ++ lit "ej, losowo wybieraj" ++ [261%N] ++ lit "c temat dla ka" ++
  [380%N] ++ lit "dego pytania." ++ [10%N].

(** The text of [prompt_open], 590 characters. *)
Definition prompt_open : str :=
  [10%N] ++ lit "Stw" ++ [243%N] ++ lit "rz dok" ++ [322%N] ++
  lit "adnie 5 pyta" ++ [324%N] ++ lit " otwartych z geografii dla szko" ++
  [322%N] ++ lit "y " ++ [347%N] ++ lit "redniej.  " ++ [10%N] ++ lit "Ka" ++
  [380%N] ++ lit "de pytanie powinno losowo pochodzi" ++ [263%N] ++
  lit " z jednej z poni" ++ [380%N] ++ lit "szych podtemat" ++ [243%N] ++
  lit "w:" ++ [10%N] ++ lit "1. Czynniki rozwoju rolnictwa" ++ [10%N] ++
  lit "2. G" ++ [322%N; 243%N] ++ lit "wne obszary upraw" ++ [10%N] ++
  lit "3. Ch" ++ [243%N] ++ lit "w zwierz" ++ [261%N] ++ lit "t" ++ [10%N] ++
  lit "4. Lasy na Ziemi. Gospodarka le" ++ [347%N] ++ lit "na" ++ [10%N] ++
  lit "5. Rybactwo" ++ [10%N; 10%N] ++ lit "Odpowiedzi **nie s" ++ [261%N] ++
  lit " potrzebne** " ++ [8211%N] ++ lit " tylko pytania.  " ++ [10%N] ++
  lit "Ka" ++ [380%N] ++ lit "de pytanie musi by" ++ [263%N] ++
  lit " w formacie:" ++ [10%N; 10%N] ++ lit "Start:" ++ [10%N] ++
  lit "[Tutaj pytanie]" ++ [10%N] ++ lit "End:" ++ [10%N; 10%N] ++
  lit "Instrukcje:" ++ [10%N] ++ lit "1. Wygeneruj dok" ++ [322%N] ++
  lit "adnie 5 pyta" ++ [324%N] ++
  lit ", jedno po drugim, bez dodatkowego tekstu mi" ++ [281%N] ++
  lit "dzy nimi." ++ [10%N] ++ lit "2. Zachowaj dok" ++ [322%N] ++
  lit "adnie struktur" ++ [281%N] ++ lit " Start/End." ++ [10%N] ++
  lit "3. Pytania musz" ++ [261%N] ++ lit " by" ++ [263%N] ++
  lit " realistyczne i losowo dobrane z podanych temat" ++ [243%N] ++
  lit "w." ++ [10%N].

(** The f-string of [verify_OPEN] up to [{request.question}]. *)
Definition verify_OPEN_head : str :=
  [10%N] ++ lit "Masz gotowe pytanie otwarte z geografii dla szko" ++
  [322%N] ++ lit "y " ++ [347%N] ++ lit "redniej:" ++ [10%N; 10%N] ++
  lit "question: " ++ [34%N].

(** The f-string of [verify_OPEN] between [{request.question}] and
    [{request.userAnswer}]. *)
Definition verify_OPEN_middle : str :=
  [34%N; 10%N] ++ lit "userAnswer: " ++ [34%N].

(** The f-string of [verify_OPEN] behind [{request.userAnswer}]. *)
Definition verify_OPEN_tail : str :=
  [34%N; 10%N; 10%N] ++ lit "Twoim zadaniem jest wygenerowa" ++ [263%N] ++
  lit " **tylko wyja" ++ [347%N] ++
  lit "nienie lub komentarz edukacyjny** dotycz" ++ [261%N] ++
  lit "cy tego pytania i odpowiedzi ucznia.  " ++ [10%N] ++ lit "Wyja" ++
  [347%N] ++ lit "nij, co by" ++ [322%N] ++ lit "o poprawne lub b" ++
  [322%N; 281%N] ++
  lit "dne w userAnswer, i podaj poprawny kierunek lub wskaz" ++ [243%N] ++
  lit "wk" ++ [281%N] ++ lit ".  " ++ [10%N] ++
  lit "Nie dodawaj pytania ani " ++ [380%N] ++
  lit "adnych innych danych.  " ++ [10%N] ++ lit "Nie u" ++ [380%N] ++
  lit "ywaj Start: ani End:, po prostu zwr" ++ [243%N; 263%N] ++
  lit " czysty tekst wyja" ++ [347%N] ++ lit "nienia." ++ [10%N].

(** *** The endpoints *)

(** The body of the responses of [/chatABCD], [/chatTRUEFALSE] and
    [/chatOPEN]: [{"model": .., "questions": ..}]. *)
Record ChatResponse (Q : Type) := {
  response_model : option str;
  response_questions : list Q
}.

(** The request body of [/verify_OPEN]. *)
Record VerifyOpenRequest := {
  vo_question : str;
  userAnswer : str
}.

(** The f-string of [verify_OPEN]: the two fields go in as they are. *)
Definition verify_OPEN_prompt (request : VerifyOpenRequest) : str :=
  verify_OPEN_head ++ vo_question request ++ verify_OPEN_middle
  ++ userAnswer request ++ verify_OPEN_tail.

(** A surrogate code point: a [str] that holds one has no UTF-8 encoding. *)
Definition is_surrogate (c : char) : bool := between 55296%N 57343%N c.

(** [s.encode("utf-8")] succeeds. *)
Definition encodable (s : str) : bool := negb (existsb is_surrogate s).

(** [JSONResponse(content)]: the content is rendered at once, by
    [json.dumps(content, ensure_ascii=False, allow_nan=False, ...)] and
    [.encode("utf-8")], which raises [UnicodeEncodeError] when one of the
    strings of the content -- [strings] lists them -- holds a surrogate.
    The keys are ASCII, an [int] always renders, and the only [float] of a
    content is the [time] of a record, the difference of two readings of
    [time.time()], which is finite, so that [allow_nan=False] raises
    nothing. *)
Definition JSONResponse {B} (strings : list str) (body : B) : res B :=
  if forallb encodable strings then Ok body else Raise UnicodeEncodeError.

(** The strings of the values that go into a response. *)
Definition model_strings (m : option str) : list str :=
  match m with
  | Some name => [name]
  | None => []
  end.

Definition multiple_choice_strings (r : MultipleChoice) : list str :=
  question r :: options r.

Definition true_false_strings (r : TrueFalse) : list str := [tf_question r].

Section Endpoints.
Context {RT : Runtime}.

Local Notation "x <== m ; k" := (seq m (fun x => k))
  (at level 61, m at next level, right associativity).

(** The body of the response of [/verify_OPEN]: [{"verify": ..}]. *)
Record VerifyResponse := { verify : ModelAttemptResult }.

(** [chat]; an exception of the parser or of [JSONResponse] leaves the
    endpoint. *)
Definition chat : M (res (ChatResponse MultipleChoice)) :=
  result <== request_ai prompt_question ;
  ret (questions <- parse_questions (content result) ;;
       JSONResponse
         (model_strings (model result)
          ++ concat (map multiple_choice_strings questions))
         {| response_model := model result;
            response_questions := questions |}).

Definition chat_true_false : M (res (ChatResponse TrueFalse)) :=
  result <== request_ai prompt_true_false_binary ;
  ret (questions <- parse_true_false_binary (content result) ;;
       JSONResponse
         (model_strings (model result)
          ++ concat (map true_false_strings questions))
         {| response_model := model result;
            response_questions := questions |}).

Definition chat_open : M (res (ChatResponse str)) :=
  result <== request_ai prompt_open ;
  ret (questions <- parse_open_questions (content result) ;;
       JSONResponse (model_strings (model result) ++ questions)
         {| response_model := model result;
            response_questions := questions |}).

Definition verify_OPEN (request : VerifyOpenRequest)
  : M (res VerifyResponse) :=
  explanation_text <== request_ai (verify_OPEN_prompt request) ;
  ret (JSONResponse
         (model_strings (model explanation_text)
          ++ [content explanation_text])
         {| verify := explanation_text |}).

End Endpoints.

(* ================================================================== *)
(** ** Notions the statements below are written with                     *)
(* ================================================================== *)

(** [sub in s]. *)
Definition contains (sub s : str) : bool :=
  match find sub s with Some _ => true | None => false end.

(** The number of positions of [s] where [sub] begins. *)
Fixpoint occurrences (sub s : str) {struct s} : nat :=
  (if startswith sub s then 1 else 0) +
  match s with
  | [] => 0
  | _ :: s' => occurrences sub s'
  end.

(** [sep.join(parts)]. *)
Fixpoint join (sep : str) (parts : list str) : str :=
  match parts with
  | [] => []
  | [p] => p
  | p :: ps => p ++ sep ++ join sep ps
  end.

Definition whitespace (w : str) : bool := forallb isspace w.

Definition starts_nonspace (s : str) : bool :=
  match s with
  | c :: _ => negb (isspace c)
  | [] => false
  end.

Definition ends_nonspace (s : str) : bool := starts_nonspace (rev s).

(** A text of one line, and a text that is not empty and has no white
    space at either end. *)
Definition single_line (s : str) : bool :=
  forallb (fun c => negb (islinebreak c)) s.

Definition tidy (s : str) : bool := starts_nonspace s && ends_nonspace s.

(** What a piece of a pattern can take, whatever the order of the tries. *)
Inductive atom_takes : atom -> str -> Prop :=
| takes_literal l : atom_takes (Literal l) l
| takes_category p c : p c = true -> atom_takes (Category p) [c]
| takes_max p w : forallb p w = true -> atom_takes (MaxRepeat p) w
| takes_min p w : forallb p w = true -> atom_takes (MinRepeat p) w
| takes_branch alts l : List.In l alts -> atom_takes (Branch alts) l.

(** [matches pat taken groups]: the pattern can take exactly [taken], its
    groups holding [groups]. *)
Inductive matches : pattern -> str -> list str -> Prop :=
| matches_nil : matches [] [] []
| matches_plain a pat w t gs :
    atom_takes a w -> matches pat t gs -> matches (Plain a :: pat) (w ++ t) gs
| matches_group a pat w t gs :
    atom_takes a w -> matches pat t gs ->
    matches (Group a :: pat) (w ++ t) (w :: gs).

(** A multiple-choice block of a reply, written after the template of
    [prompt_question]: the markers in their order, white space (possibly
    none) between the pieces, one option per line, and some text [lead]
    before the block. *)
Record block := {
  lead : str;
  gap1 : str;
  b_question : str;
  gap2 : str;
  gap3 : str;
  gap4 : str;
  b_options : list str;
  gap5 : str;
  b_digit : char;
  gap6 : str
}.

Definition newline : str := [10%N].

Definition render (b : block) : str :=
  lead b ++ Start ++ gap1 b ++ b_question b ++ gap2 b ++ End_ ++ gap3 b
  ++ OptionsStart ++ gap4 b ++ join newline (b_options b) ++ gap5 b
  ++ b_digit b :: gap6 b ++ OptionsEnd.

(** The block is well shaped: the gaps are white space, the question and
    every option are tidy, an option is one line, the digit is a digit, and no
    piece holds the marker that ends it ([lead] not the one that begins the
    block). *)
Definition well_shaped (b : block) : bool :=
  negb (contains Start (lead b))
  && (whitespace (gap1 b) && whitespace (gap2 b) && whitespace (gap3 b)
      && whitespace (gap4 b) && whitespace (gap5 b) && whitespace (gap6 b))
  && (tidy (b_question b) && negb (contains End_ (b_question b)))
  && (negb (List.length (b_options b) =? 0)
      && forallb (fun o => tidy o && single_line o) (b_options b)
      && negb (contains OptionsEnd (join newline (b_options b))))
  && isdecimal (b_digit b).

Definition four_options (b : block) : bool :=
  List.length (b_options b) =? 4.

Definition well_formed (b : block) : bool := well_shaped b && four_options b.

(** The value of a decimal digit. *)
Definition digit_value (c : char) : Z :=
  match todecimal c with
  | Some v => Z.of_N v
  | None => 0
  end.

(** The record a block stands for. *)
Definition record_of (b : block) : MultipleChoice :=
  {| question := b_question b;
     options := b_options b;
     correctOptionIndex := digit_value (b_digit b) |}.

(** What a run of the loop over [models] adds to the calls, and what it
    returns: it ends with the first call that gave a content, or it went
    through all of [models] in vain. *)
Definition loop_outcome {RT : Runtime} (models : list str) (prompt : str)
  (new : list attempt) (r : ModelAttemptResult) : Prop :=
  Forall (fun a => called_prompt a = prompt) new /\
  ((exists before a raw others not_called,
       new = before ++ [a] /\ Forall failed before /\
       models = map called_model before ++ called_model a :: not_called /\
       ended a = Returned {| choices := Some raw :: others |} /\
       model r = Some (called_model a) /\ content r = strip raw)
   \/ (map called_model new = models /\ Forall failed new /\
       r = {| model := None; content := no_answer; time := None |})).

(** The texts of the examples; [\n] is [newline]. *)

(** ["Start: Q1 End: OptionsStart: A\nB\nC\nD\n2 OptionsEnd:"] *)
Definition four_options_text : str :=
  lit "Start: Q1 End: OptionsStart: A" ++ newline ++ lit "B" ++ newline
  ++ lit "C" ++ newline ++ lit "D" ++ newline ++ lit "2 OptionsEnd:".

(** The same block as a [block]. *)
Definition four_options_block : block :=
  {| lead := []; gap1 := lit " "; b_question := lit "Q1"; gap2 := lit " ";
     gap3 := lit " "; gap4 := lit " ";
     b_options := [lit "A"; lit "B"; lit "C"; lit "D"];
     gap5 := newline; b_digit := 50%N; gap6 := lit " " |}.

(** ["Start: Q1 End: OptionsStart: A\nB\nC\n2 OptionsEnd:"] *)
Definition three_options_text : str :=
  lit "Start: Q1 End: OptionsStart: A" ++ newline ++ lit "B" ++ newline
  ++ lit "C" ++ newline ++ lit "2 OptionsEnd:".

(** ["Start: Q1 End: OptionsStart: A\nB\nC\nD\n7 OptionsEnd:"] *)
Definition digit_seven_text : str :=
  lit "Start: Q1 End: OptionsStart: A" ++ newline ++ lit "B" ++ newline
  ++ lit "C" ++ newline ++ lit "D" ++ newline ++ lit "7 OptionsEnd:".

(** A provider that never answers in time, with a clock that stands. *)
Definition silent_provider : Runtime :=
  {| World := unit;
     seconds := unit;
     minus := fun _ _ => tt;
     create := fun _ _ w => (TimeoutError, w);
     time_time := fun w => (tt, w) |}.

Definition silent_start : @state silent_provider :=
  @initial silent_provider (tt : @World silent_provider).

(** The offsets of the ten digits of a block of decimal digits. *)
Definition ten : list N := [0; 1; 2; 3; 4; 5; 6; 7; 8; 9]%N.

(** [well_shaped], condition by condition. *)
Record shape (b : block) : Prop := {
  shape_lead : contains Start (lead b) = false;
  shape_gap1 : whitespace (gap1 b) = true;
  shape_gap2 : whitespace (gap2 b) = true;
  shape_gap3 : whitespace (gap3 b) = true;
  shape_gap4 : whitespace (gap4 b) = true;
  shape_gap5 : whitespace (gap5 b) = true;
  shape_gap6 : whitespace (gap6 b) = true;
  shape_question : tidy (b_question b) = true;
  shape_question_End : contains End_ (b_question b) = false;
  shape_options : b_options b <> [];
  shape_lines :
    Forall (fun o => tidy o = true /\ single_line o = true) (b_options b);
  shape_options_End :
    contains OptionsEnd (join newline (b_options b)) = false;
  shape_digit : isdecimal (b_digit b) = true
}.

(** A true/false block of a reply, written after the template of
    [prompt_true_false_binary]. *)
Record tf_block := {
  t_lead : str;
  t_gap1 : str;
  t_question : str;
  t_gap2 : str;
  t_gap3 : str;
  t_gap4 : str;
  t_answer : bool;
  t_gap5 : str
}.

Definition answer_text (a : bool) : str := if a then lit "1" else lit "0".

Definition render_tf (b : tf_block) : str :=
  t_lead b ++ Start ++ t_gap1 b ++ t_question b ++ t_gap2 b ++ End_
  ++ t_gap3 b ++ answerStart ++ t_gap4 b ++ answer_text (t_answer b)
  ++ t_gap5 b ++ answerEnd.

Definition well_shaped_tf (b : tf_block) : bool :=
  negb (contains Start (t_lead b))
  && (whitespace (t_gap1 b) && whitespace (t_gap2 b) && whitespace (t_gap3 b)
      && whitespace (t_gap4 b) && whitespace (t_gap5 b))
  && (tidy (t_question b) && negb (contains End_ (t_question b))).

Definition tf_record_of (b : tf_block) : TrueFalse :=
  {| tf_question := t_question b;
     answer := if t_answer b then 1%Z else 0%Z |}.

(** An open question of a reply, written after the template of
    [prompt_open], with the text [o_after] that follows its [End:]. *)
Record open_block := {
  o_gap1 : str;
  o_question : str;
  o_gap2 : str;
  o_after : str
}.

(** What stands behind [Start:]. *)
Definition open_fragment (b : open_block) : str :=
  o_gap1 b ++ o_question b ++ o_gap2 b ++ End_ ++ o_after b.

Definition render_open (b : open_block) : str := Start ++ open_fragment b.

Definition well_shaped_open (b : open_block) : bool :=
  whitespace (o_gap1 b) && whitespace (o_gap2 b)
  && tidy (o_question b) && negb (contains End_ (o_question b))
  && negb (contains Start (open_fragment b)).

(** The models named by the [InfoTrying] records of a log, in order. *)
Fixpoint tried {RT : Runtime} (l : list log_record) : list str :=
  match l with
  | [] => []
  | InfoTrying m :: l' => m :: tried l'
  | _ :: l' => tried l'
  end.

(** The double quote. *)
Definition quote : char := 34%N.

Definition has_quote (s : str) : bool := existsb (char_eqb quote) s.

(** More example texts. *)

(** A block with three options, and the block of [four_options_text] behind
    it on the next line. *)
Definition three_options_block : block :=
  {| lead := []; gap1 := lit " "; b_question := lit "Q1"; gap2 := lit " ";
     gap3 := lit " "; gap4 := lit " ";
     b_options := [lit "A"; lit "B"; lit "C"];
     gap5 := newline; b_digit := 50%N; gap6 := lit " " |}.

Definition next_four_options_block : block :=
  {| lead := newline; gap1 := lit " "; b_question := lit "Q1";
     gap2 := lit " "; gap3 := lit " "; gap4 := lit " ";
     b_options := [lit "A"; lit "B"; lit "C"; lit "D"];
     gap5 := newline; b_digit := 50%N; gap6 := lit " " |}.

(** ["Start: Is Earth round? End: answerStart: 1 answerEnd:"] as a block. *)
Definition earth_block : tf_block :=
  {| t_lead := []; t_gap1 := lit " "; t_question := lit "Is Earth round?";
     t_gap2 := lit " "; t_gap3 := lit " "; t_gap4 := lit " ";
     t_answer := true; t_gap5 := lit " " |}.

(** ["Start: Q1 End: "] and ["Start: Q2 End:"] as blocks. *)
Definition open_q1 : open_block :=
  {| o_gap1 := lit " "; o_question := lit "Q1"; o_gap2 := lit " ";
     o_after := lit " " |}.

Definition open_q2 : open_block :=
  {| o_gap1 := lit " "; o_question := lit "Q2"; o_gap2 := lit " ";
     o_after := [] |}.

(** What [parse_open_questions] makes of one part. *)
Definition open_piece (part : str) : str :=
  strip (match find End_ part with
         | Some i => firstn i part
         | None => part
         end).

(** What a run of the loop adds to the log, beside the calls [new] it
    adds: an [InfoTrying] record and a record of the outcome per call, and
    the warning at the end when no model answered. *)
Definition loop_log {RT : Runtime} (new : list attempt)
  (newlog : list log_record) (r : ModelAttemptResult) : Prop :=
  tried newlog = map called_model new /\
  List.length newlog
  = 2 * List.length new + match model r with Some _ => 0 | None => 1 end /\
  (List.In WarningNoModel newlog <-> model r = None) /\
  (time r = None <-> model r = None).

(** A provider whose every call returns one choice, the text of
    [four_options_text] between two line feeds. *)
Definition answering_provider : Runtime :=
  {| World := unit;
     seconds := unit;
     minus := fun _ _ => tt;
     create := fun _ _ w =>
       (Returned {| choices := [Some (newline ++ four_options_text
                                      ++ newline)] |}, w);
     time_time := fun w => (tt, w) |}.

Definition answering_start : @state answering_provider :=
  @initial answering_provider (tt : @World answering_provider).

(** Two requests to [/verify_OPEN] that give the same prompt. *)
Definition forged_request : VerifyOpenRequest :=
  {| vo_question := lit "a" ++ verify_OPEN_middle ++ lit "b";
     userAnswer := lit "c" |}.

Definition plain_request : VerifyOpenRequest :=
  {| vo_question := lit "a";
     userAnswer := lit "b" ++ verify_OPEN_middle ++ lit "c" |}.

(** The content a call gave back, read off the outcome of the call alone:
    the call returned, the response has a first choice, and the content of
    its message is a [str]. *)
Definition returned_content (a : attempt) : option str :=
  match ended a with
  | Returned response =>
      match choices response with
      | Some raw :: _ => Some raw
      | _ => None
      end
  | TimeoutError => None
  | OtherException => None
  end.

(** [c] is [raw] without the white space at its two ends. *)
Definition trimmed (raw c : str) : Prop :=
  (exists w1 w2,
      raw = w1 ++ c ++ w2 /\ whitespace w1 = true /\ whitespace w2 = true)
  /\ (c = [] \/ tidy c = true).

(** A provider that counts its calls: the first call times out, the second
    returns no choice, the third a choice without content, the fourth
    raises, and every later call returns ["  ok\n"] as its first choice. *)
Definition flaky_provider : Runtime :=
  {| World := nat;
     seconds := unit;
     minus := fun _ _ => tt;
     create := fun _ _ n =>
       (match n with
        | 0 => TimeoutError
        | 1 => Returned {| choices := [] |}
        | 2 => Returned {| choices := [None; Some (lit "late")] |}
        | 3 => OtherException
        | _ => Returned {| choices := [Some (lit "  ok" ++ newline);
                                       Some (lit "second")] |}
        end, S n);
     time_time := fun n => (tt, n) |}.

Definition flaky_start : @state flaky_provider :=
  @initial flaky_provider (0 : @World flaky_provider).

(** A provider whose every call returns one choice, an open question that
    is the lone surrogate U+D800. *)
Definition surrogate_reply : str :=
  lit "Start: " ++ [55296%N] ++ lit " End:".

Definition surrogate_provider : Runtime :=
  {| World := unit;
     seconds := unit;
     minus := fun _ _ => tt;
     create := fun _ _ w =>
       (Returned {| choices := [Some surrogate_reply] |}, w);
     time_time := fun w => (tt, w) |}.

Definition surrogate_start : @state surrogate_provider :=
  @initial surrogate_provider (tt : @World surrogate_provider).

(* ================================================================== *)
(** ** Facts about the Python values                                    *)
(* ================================================================== *)

Module PyFacts.

Lemma char_eqb_eq (a b : char) : char_eqb a b = true <-> a = b.
Proof. apply N.eqb_eq. Qed.

Lemma char_eqb_refl (a : char) : char_eqb a a = true.
Proof. apply N.eqb_refl. Qed.

Lemma str_eqb_nil (s : str) : str_eqb s [] = true <-> s = [].
Proof. destruct s; simpl; split; congruence. Qed.

(** *** [removeprefix], [startswith] *)

Lemma removeprefix_app (p s : str) : removeprefix p (p ++ s) = Some s.
Proof.
  induction p as [|x p IH]; simpl; [reflexivity|].
  now rewrite char_eqb_refl.
Qed.

Lemma removeprefix_Some (p s r : str) :
  removeprefix p s = Some r -> s = p ++ r.
Proof.
  revert s; induction p as [|x p IH]; intros [|y s]; simpl; try congruence.
  destruct (char_eqb x y) eqn:E; [|discriminate].
  apply char_eqb_eq in E; subst y.
  intros H; apply IH in H; now subst.
Qed.

Lemma startswith_app (p s : str) : startswith p (p ++ s) = true.
Proof. unfold startswith; now rewrite removeprefix_app. Qed.

Lemma startswith_true (p s : str) :
  startswith p s = true -> exists r, s = p ++ r.
Proof.
  unfold startswith; destruct (removeprefix p s) as [r|] eqn:E; [|discriminate].
  intros _; exists r; now apply removeprefix_Some.
Qed.

Lemma startswith_false (p s : str) :
  startswith p s = false -> removeprefix p s = None.
Proof. unfold startswith; destruct (removeprefix p s); congruence. Qed.

Lemma startswith_cons (x y : char) (p s : str) :
  startswith (x :: p) (y :: s) = char_eqb x y && startswith p s.
Proof. unfold startswith; simpl; now destruct (char_eqb x y). Qed.

Lemma startswith_length (p s : str) :
  startswith p s = true -> List.length p <= List.length s.
Proof.
  intros H; apply startswith_true in H as [r ->].
  rewrite length_app; lia.
Qed.

(** If [m] begins [x ++ y], it begins [x] already, or it runs into [y] and
    the first character of [y] is one of [m] -- behind its first one, when
    [x] is not empty. *)
Lemma startswith_app_inv (m x y : str) :
  startswith m (x ++ y) = true ->
  startswith m x = true \/
  exists c y', y = c :: y' /\ (x = [] \/ List.In c (tl m)).
Proof.
  revert x; induction m as [|a m IH]; intros x H; [now left|].
  destruct x as [|b x].
  - simpl in H. destruct y as [|c y']; [discriminate|].
    right; exists c, y'; auto.
  - simpl in H; rewrite startswith_cons in *.
    apply andb_true_iff in H as [Hab H]; rewrite Hab; simpl.
    destruct (IH _ H) as [Hx | (c & y' & -> & Hc)]; [now left|].
    destruct Hc as [-> | Hc].
    + simpl in H. destruct m as [|a' m]; [now left|].
      rewrite startswith_cons in H; apply andb_true_iff in H as [Hc _].
      apply char_eqb_eq in Hc; subst.
      right; exists c, y'; split; [reflexivity|]; right; now left.
    + right; exists c, y'; split; [reflexivity|]; right.
      destruct m; simpl in *; [contradiction | now right].
Qed.

(** *** [find], [contains], [occurrences] *)

Lemma find_None (sub a b : str) :
  find sub (a ++ b) = None -> startswith sub b = false.
Proof.
  induction a as [|c a IH]; simpl.
  - destruct b; simpl; destruct (startswith sub _); congruence.
  - destruct (startswith sub (c :: a ++ b)); [discriminate|].
    destruct (find sub (a ++ b)); [discriminate|]; auto.
Qed.

Lemma contains_false_suffix (sub a b : str) :
  contains sub (a ++ b) = false -> contains sub b = false.
Proof.
  unfold contains; induction a as [|c a IH]; simpl; [auto|].
  destruct (startswith sub (c :: a ++ b)); [discriminate|].
  destruct (find sub (a ++ b)); [discriminate|]; auto.
Qed.

Lemma contains_false_prefix (sub a b : str) :
  contains sub (a ++ b) = false -> contains sub a = false.
Proof.
  unfold contains; induction a as [|c a IH]; simpl.
  - intros H. destruct (startswith sub []) eqn:E; [|reflexivity].
    apply startswith_true in E as [r E]. symmetry in E.
    apply app_eq_nil in E as [-> _].
    destruct b; simpl in H; discriminate.
  - destruct (startswith sub (c :: a ++ b)) eqn:E1.
    + discriminate.
    + destruct (startswith sub (c :: a)) eqn:E2.
      * apply startswith_true in E2 as [r E2].
        change (c :: a ++ b) with ((c :: a) ++ b) in E1.
        rewrite E2, <- !app_assoc, startswith_app in E1; discriminate.
      * destruct (find sub (a ++ b)); [discriminate|].
        intros _. specialize (IH eq_refl).
        destruct (find sub a); [discriminate | reflexivity].
Qed.

Lemma contains_false_startswith (sub s : str) :
  contains sub s = false -> startswith sub s = false.
Proof.
  unfold contains; intros H.
  destruct (find sub s) eqn:E; [discriminate|].
  now apply (find_None sub [] s).
Qed.

Lemma contains_false_infix (sub a s b : str) :
  contains sub (a ++ s ++ b) = false -> contains sub s = false.
Proof.
  intros H. apply contains_false_suffix in H.
  now apply contains_false_prefix in H.
Qed.


Lemma contains_nil (sub : str) : sub <> [] -> contains sub [] = false.
Proof. destruct sub; [congruence | reflexivity]. Qed.

Lemma startswith_prefix (sub x y : str) :
  startswith sub x = true -> startswith sub (x ++ y) = true.
Proof.
  intros H; apply startswith_true in H as [r ->].
  rewrite <- app_assoc; apply startswith_app.
Qed.

Lemma find_Some_length (sub s : str) (i : nat) :
  find sub s = Some i -> i + List.length sub <= List.length s.
Proof.
  revert i; induction s as [|c s IH]; intros i; simpl.
  - destruct (startswith sub []) eqn:E; [|discriminate].
    intros [= <-]. apply startswith_length in E; simpl in *; lia.
  - destruct (startswith sub (c :: s)) eqn:E.
    + intros [= <-]. apply startswith_length in E; simpl in *; lia.
    + destruct (find sub s) as [j|]; [|discriminate].
      intros [= <-]. specialize (IH _ eq_refl); simpl; lia.
Qed.

Lemma find_Some_split (sub s : str) (i : nat) :
  find sub s = Some i ->
  s = firstn i s ++ sub ++ skipn (i + List.length sub) s.
Proof.
  revert i; induction s as [|c s IH]; intros i; simpl.
  - destruct (startswith sub []) eqn:E; [|discriminate].
    intros [= <-]. apply startswith_true in E as [r E].
    symmetry in E; apply app_eq_nil in E as [-> ->]; reflexivity.
  - destruct (startswith sub (c :: s)) eqn:E.
    + intros [= <-]. apply startswith_true in E as [r E].
      rewrite E at 1; simpl; f_equal.
      rewrite E, skipn_app, skipn_all, Nat.sub_diag; reflexivity.
    + destruct (find sub s) as [j|]; [|discriminate].
      intros [= <-]. simpl; f_equal; now apply IH.
Qed.

Lemma find_Some_before (sub s : str) (i : nat) :
  sub <> [] -> find sub s = Some i -> contains sub (firstn i s) = false.
Proof.
  intros Hsub; revert i; induction s as [|c s IH]; intros i; simpl.
  - destruct (startswith sub []); [|discriminate].
    intros [= <-]; now apply contains_nil.
  - destruct (startswith sub (c :: s)) eqn:E.
    + intros [= <-]; now apply contains_nil.
    + destruct (find sub s) as [j|]; [|discriminate].
      intros [= <-]. specialize (IH _ eq_refl).
      unfold contains in *; simpl.
      destruct (startswith sub (c :: firstn j s)) eqn:E'.
      * apply (startswith_prefix _ _ (skipn j s)) in E'.
        simpl in E'; rewrite firstn_skipn in E'; congruence.
      * destruct (find sub (firstn j s)); [discriminate | reflexivity].
Qed.

(** *** [split] *)

Lemma split_loop_fuel (sep : str) (n m : nat) (s : str) :
  sep <> [] -> List.length s <= n -> List.length s <= m ->
  split_loop n sep s = split_loop m sep s.
Proof.
  intros Hsep; revert m s; induction n as [|n IH]; intros m s Hn Hm;
    destruct m as [|m]; simpl; destruct (find sep s) as [i|] eqn:E;
    try reflexivity.
  - apply find_Some_length in E; destruct sep; [congruence | cbn [List.length] in *; lia].
  - apply find_Some_length in E; destruct sep; [congruence | cbn [List.length] in *; lia].
  - f_equal. apply find_Some_length in E.
    apply IH; rewrite length_skipn;
      (destruct sep; [congruence | cbn [List.length] in *; lia]).
Qed.

(** One round of [s.split(sep)]. *)
Lemma split_loop_unfold (sep s : str) :
  sep <> [] ->
  split_loop (List.length s) sep s =
  match find sep s with
  | None => [s]
  | Some i =>
      let rest := skipn (i + List.length sep) s in
      firstn i s :: split_loop (List.length rest) sep rest
  end.
Proof.
  intros Hsep. destruct s as [|c s]; simpl List.length.
  - simpl. destruct (startswith sep []) eqn:E; [|reflexivity].
    apply startswith_length in E; destruct sep; [congruence | cbn [List.length] in *; lia].
  - cbn [split_loop]. destruct (find sep (c :: s)) as [i|] eqn:E; [|reflexivity].
    cbv zeta. f_equal. apply find_Some_length in E.
    apply split_loop_fuel; auto; rewrite length_skipn;
      (destruct sep; [congruence | cbn [List.length] in *; lia]).
Qed.

(** Induction along the rounds of [split]. *)
Lemma split_ind (sep : str) (P : str -> list str -> Prop) :
  sep <> [] ->
  (forall s, find sep s = None -> P s [s]) ->
  (forall s i parts,
      find sep s = Some i ->
      P (skipn (i + List.length sep) s) parts ->
      P s (firstn i s :: parts)) ->
  forall s, P s (split_loop (List.length s) sep s).
Proof.
  intros Hsep Hnone Hsome s.
  remember (List.length s) as n eqn:Hn.
  assert (Hle : List.length s <= n) by lia. clear Hn.
  revert s Hle; induction n as [|n IH]; intros s Hle.
  - destruct s; [|simpl in Hle; lia]. cbn [split_loop].
    destruct (find sep []) as [i|] eqn:E; [|now apply Hnone].
    apply find_Some_length in E; destruct sep; [congruence | cbn [List.length] in *; lia].
  - rewrite (split_loop_fuel (m := List.length s)) by (auto; lia).
    rewrite split_loop_unfold by assumption.
    destruct (find sep s) as [i|] eqn:E; [|now apply Hnone].
    cbv zeta. apply Hsome; [assumption|].
    pose proof (find_Some_length _ _ E) as HL.
    rewrite (split_loop_fuel (m := n)); auto; try lia.
    + apply IH. rewrite length_skipn. destruct sep; [congruence | cbn [List.length] in *; lia].
    + rewrite length_skipn. destruct sep; [congruence | cbn [List.length] in *; lia].
Qed.

Lemma split_parts_clean (sep s : str) :
  sep <> [] ->
  Forall (fun p => contains sep p = false) (split_loop (List.length s) sep s).
Proof.
  intros Hsep. apply (split_ind (sep := sep)
    (fun _ parts => Forall (fun p => contains sep p = false) parts)); auto.
  - intros t E; constructor; [|constructor]. unfold contains; now rewrite E.
  - intros t i parts E IH; constructor; [|assumption].
    now apply find_Some_before.
Qed.

Lemma split_join (sep s : str) :
  sep <> [] -> join sep (split_loop (List.length s) sep s) = s.
Proof.
  intros Hsep. apply (split_ind (sep := sep)
    (fun t parts => parts <> [] /\ join sep parts = t)); auto.
  - intros t E; split; [discriminate | reflexivity].
  - intros t i parts E [Hne IH]; split; [discriminate|].
    destruct parts as [|p parts]; [congruence|].
    change (join sep (firstn i t :: p :: parts))
      with (firstn i t ++ sep ++ join sep (p :: parts)).
    rewrite IH. symmetry; now apply find_Some_split.
Qed.

Lemma split_head (sep s : str) :
  sep <> [] ->
  nth_error (split_loop (List.length s) sep s) 0 =
  Some (match find sep s with Some i => firstn i s | None => s end).
Proof.
  intros Hsep; rewrite split_loop_unfold by assumption.
  destruct (find sep s); reflexivity.
Qed.

(** *** [occurrences] *)

Lemma occurrences_find_None (sub s : str) :
  find sub s = None -> occurrences sub s = 0.
Proof.
  induction s as [|c s IH]; simpl.
  - destruct (startswith sub []); [discriminate | reflexivity].
  - destruct (startswith sub (c :: s)); [discriminate|].
    destruct (find sub s); [discriminate|]; auto.
Qed.

Lemma occurrences_suffix (sub a b : str) :
  occurrences sub b <= occurrences sub (a ++ b).
Proof.
  induction a as [|c a IH]; simpl; [lia|].
  destruct (startswith sub (c :: a ++ b)); simpl; lia.
Qed.

Lemma occurrences_contains (sub s : str) :
  contains sub s = false -> occurrences sub s = 0.
Proof.
  unfold contains; intros H; apply occurrences_find_None.
  destruct (find sub s); [discriminate | reflexivity].
Qed.

(** *** [strip] *)

Lemma lstrip_suffix (s : str) :
  exists w, s = w ++ lstrip s /\ whitespace w = true.
Proof.
  induction s as [|c s (w & IH & Hw)]; simpl.
  - now exists [].
  - destruct (isspace c) eqn:E.
    + exists (c :: w); split; [now rewrite IH at 1|].
      unfold whitespace in *; simpl; now rewrite E.
    + now exists [].
Qed.

Lemma lstrip_starts (s : str) : starts_nonspace s = true -> lstrip s = s.
Proof.
  destruct s as [|c s]; simpl; [reflexivity|].
  now destruct (isspace c).
Qed.

Lemma lstrip_whitespace (w s : str) :
  whitespace w = true -> lstrip (w ++ s) = lstrip s.
Proof.
  unfold whitespace; induction w as [|c w IH]; simpl; [reflexivity|].
  intros H; apply andb_true_iff in H as [-> H]; auto.
Qed.

Lemma lstrip_nil_whitespace (s : str) : lstrip s = [] -> whitespace s = true.
Proof.
  unfold whitespace; induction s as [|c s IH]; simpl; [reflexivity|].
  destruct (isspace c); [auto | discriminate].
Qed.

Lemma lstrip_starts_or_nil (s : str) :
  lstrip s = [] \/ starts_nonspace (lstrip s) = true.
Proof.
  induction s as [|c s IH]; simpl; [now left|].
  destruct (isspace c) eqn:E; [assumption|].
  right; simpl; now rewrite E.
Qed.

Lemma rstrip_prefix (s : str) :
  exists w, s = rstrip s ++ w /\ whitespace w = true.
Proof.
  unfold rstrip. destruct (lstrip_suffix (rev s)) as (w & E & Hw).
  exists (rev w); split.
  - rewrite <- (rev_involutive s), E at 1. now rewrite rev_app_distr.
  - unfold whitespace in *. rewrite forallb_forall in *.
    intros c Hc; apply Hw; now apply in_rev.
Qed.

Lemma strip_infix (s : str) : exists a b, s = a ++ strip s ++ b.
Proof.
  unfold strip.
  destruct (lstrip_suffix s) as (a & Ea & _).
  destruct (rstrip_prefix (lstrip s)) as (b & Eb & _).
  exists a, b. now rewrite <- Eb.
Qed.

Lemma strip_clean (s : str) :
  starts_nonspace s = true -> ends_nonspace s = true -> strip s = s.
Proof.
  unfold strip, rstrip, ends_nonspace; intros H1 H2.
  rewrite (lstrip_starts _ H1), (lstrip_starts _ H2).
  apply rev_involutive.
Qed.

Lemma ends_nonspace_app (a b : str) :
  b <> [] -> ends_nonspace (a ++ b) = ends_nonspace b.
Proof.
  unfold ends_nonspace; intros Hb. rewrite rev_app_distr.
  destruct (rev b) eqn:E; [|reflexivity].
  apply (f_equal (@rev char)) in E; rewrite rev_involutive in E.
  simpl in E; congruence.
Qed.

Lemma ends_nonspace_not_nil (s : str) : ends_nonspace s = true -> s <> [].
Proof. intros H ->; discriminate. Qed.

Lemma starts_nonspace_app (a b : str) :
  starts_nonspace a = true -> starts_nonspace (a ++ b) = true.
Proof. destruct a; simpl; [discriminate | auto]. Qed.

(** Behind leading white space, a text that ends in another character
    still has a first character of its own. *)
Lemma lstrip_app_ends (x y : str) :
  ends_nonspace x = true ->
  lstrip (x ++ y) = lstrip x ++ y /\ starts_nonspace (lstrip x) = true.
Proof.
  induction x as [|c x IH]; [discriminate|]; intros H; simpl.
  destruct (isspace c) eqn:E.
  - destruct x as [|c' x'].
    + unfold ends_nonspace in H; simpl in H; rewrite E in H; discriminate.
    + apply IH. rewrite <- H.
      symmetry; apply (ends_nonspace_app [c]); discriminate.
  - split; [reflexivity|]. simpl; now rewrite E.
Qed.

(** *** [splitlines] *)

Lemma splitlines_from_app (cur o rest : str) :
  single_line o = true ->
  splitlines_from cur (o ++ rest) = splitlines_from (cur ++ o) rest.
Proof.
  unfold single_line; revert cur; induction o as [|c o IH]; intros cur; simpl.
  - now rewrite app_nil_r.
  - intros H; apply andb_true_iff in H as [Hc H].
    apply negb_true_iff in Hc; rewrite Hc, IH by assumption.
    now rewrite <- app_assoc.
Qed.

Lemma splitlines_join (lines : list str) :
  Forall (fun o => o <> [] /\ single_line o = true) lines ->
  splitlines (join [10%N] lines) = lines.
Proof.
  unfold splitlines; induction 1 as [|o os [Ho Hl] Hos IH]; [reflexivity|].
  destruct os as [|o' os].
  - simpl join. rewrite <- (app_nil_r o) at 1.
    rewrite splitlines_from_app by assumption.
    simpl. destruct o; [congruence | reflexivity].
  - change (join [10%N] (o :: o' :: os))
      with (o ++ 10%N :: join [10%N] (o' :: os)).
    rewrite splitlines_from_app by assumption. simpl app.
    cbn [splitlines_from]. change (islinebreak 10%N) with true.
    change (char_eqb 10%N 13%N) with false. cbv iota. now rewrite IH.
Qed.

Lemma tidy_strip (s : str) : tidy s = true -> strip s = s.
Proof.
  unfold tidy; intros H; apply andb_true_iff in H as [H1 H2].
  now apply strip_clean.
Qed.

Lemma tidy_not_nil (s : str) : tidy s = true -> s <> [].
Proof. intros H ->; discriminate. Qed.

(** *** Decimal digits *)

(** A property of code points that holds on the whole table of decimal
    digits holds for every character [\d] matches. *)
Lemma decimal_table (P : char -> bool) :
  forallb (fun z => forallb (fun j => P (z + j)%N) ten) decimal_zeros = true ->
  forall c, isdecimal c = true -> P c = true.
Proof.
  intros HT c Hc. unfold isdecimal, todecimal in Hc.
  destruct (List.find _ decimal_zeros) as [z|] eqn:E; [|discriminate].
  apply find_some in E as [Hz Hb].
  rewrite forallb_forall in HT. specialize (HT _ Hz).
  rewrite forallb_forall in HT.
  unfold between in Hb. apply andb_true_iff in Hb as [H1 H2].
  apply N.leb_le in H1, H2.
  replace c with (z + (c - z))%N by lia. apply HT.
  assert (c - z = 0 \/ c - z = 1 \/ c - z = 2 \/ c - z = 3 \/ c - z = 4 \/
          c - z = 5 \/ c - z = 6 \/ c - z = 7 \/ c - z = 8 \/ c - z = 9)%N
    as H by lia.
  unfold ten; simpl.
  repeat (destruct H as [H | H]; [rewrite H; tauto|]). rewrite H; tauto.
Qed.

Lemma decimal_not_space (c : char) : isdecimal c = true -> isspace c = false.
Proof.
  intros H; apply negb_true_iff.
  revert c H; apply decimal_table; vm_compute; reflexivity.
Qed.

Lemma decimal_value (c : char) :
  isdecimal c = true ->
  exists v, todecimal c = Some v /\ (v <= 9)%N /\ int [c] = Ok (Z.of_N v).
Proof.
  intros H.
  assert (Hs : isspace c = false) by now apply decimal_not_space.
  assert (Hp : negb (char_eqb c 43%N) && negb (char_eqb c 45%N) = true)
    by (revert c H Hs; intros c H _; revert c H;
        apply decimal_table; vm_compute; reflexivity).
  apply andb_true_iff in Hp as [Hp Hm].
  apply negb_true_iff in Hp, Hm.
  unfold isdecimal in H. destruct (todecimal c) as [v|] eqn:E; [|discriminate].
  exists v; split; [reflexivity|]; split.
  - unfold todecimal in E.
    destruct (List.find _ decimal_zeros) as [z|] eqn:F; [|discriminate].
    apply find_some in F as [_ Hb]. injection E as <-.
    unfold between in Hb; apply andb_true_iff in Hb as [H1 H2].
    apply N.leb_le in H1, H2. lia.
  - unfold int. rewrite strip_clean.
    + rewrite Hp, Hm. simpl. rewrite E. reflexivity.
    + simpl; now rewrite Hs.
    + unfold ends_nonspace; simpl; now rewrite Hs.
Qed.

End PyFacts.

Import PyFacts.

(* ================================================================== *)
(** ** Facts about the matcher                                          *)
(* ================================================================== *)

Module ReFacts.

(** *** Every answer of the matcher is a way to match *)

Section AtomSound.
Context {R : Type} (k : str -> str -> option R).

Lemma literal_sound (l s : str) (r : R) :
  literal k l s = Some r -> exists s', s = l ++ s' /\ k l s' = Some r.
Proof.
  unfold literal. destruct (removeprefix l s) as [s'|] eqn:E; [|discriminate].
  intros H; exists s'; split; [now apply removeprefix_Some | assumption].
Qed.

Lemma max_repeat_sound (p : char -> bool) (s taken : str) (r : R) :
  max_repeat k p taken s = Some r ->
  exists w s', s = w ++ s' /\ forallb p w = true /\ k (taken ++ w) s' = Some r.
Proof.
  revert taken; induction s as [|c s IH]; intros taken; simpl.
  - intros H; exists [], []; rewrite (app_nil_r taken); auto.
  - destruct (p c) eqn:Hc.
    + destruct (max_repeat k p (taken ++ [c]) s) as [r'|] eqn:E.
      * intros [= <-]. apply IH in E as (w & s' & -> & Hw & Hk).
        exists (c :: w), s'; simpl; rewrite Hc, Hw.
        now rewrite <- app_assoc in Hk.
      * intros H; exists [], (c :: s); rewrite (app_nil_r taken); auto.
    + intros H; exists [], (c :: s); rewrite (app_nil_r taken); auto.
Qed.

Lemma min_repeat_sound (p : char -> bool) (s taken : str) (r : R) :
  min_repeat k p taken s = Some r ->
  exists w s', s = w ++ s' /\ forallb p w = true /\ k (taken ++ w) s' = Some r.
Proof.
  revert taken; induction s as [|c s IH]; intros taken; simpl.
  - destruct (k taken []) eqn:E; [|discriminate].
    intros [= <-]; exists [], []; rewrite (app_nil_r taken); auto.
  - destruct (k taken (c :: s)) eqn:E.
    + intros [= <-]; exists [], (c :: s); rewrite (app_nil_r taken); auto.
    + destruct (p c) eqn:Hc; [|discriminate].
      intros H; apply IH in H as (w & s' & -> & Hw & Hk).
      exists (c :: w), s'; simpl; rewrite Hc, Hw.
      now rewrite <- app_assoc in Hk.
Qed.

Lemma branch_sound (alts : list str) (s : str) (r : R) :
  branch k alts s = Some r ->
  exists l s', s = l ++ s' /\ List.In l alts /\ k l s' = Some r.
Proof.
  induction alts as [|l alts IH]; simpl; [discriminate|].
  destruct (literal k l s) eqn:E.
  - intros [= <-]. apply literal_sound in E as (s' & -> & Hk).
    exists l, s'; auto.
  - intros H; apply IH in H as (l' & s' & -> & Hin & Hk).
    exists l', s'; auto.
Qed.

Lemma match_atom_sound (a : atom) (s : str) (r : R) :
  match_atom k a s = Some r ->
  exists w s', s = w ++ s' /\ atom_takes a w /\ k w s' = Some r.
Proof.
  destruct a as [l|p|p|p|alts]; simpl.
  - intros H; apply literal_sound in H as (s' & -> & Hk).
    exists l, s'; repeat split; [constructor | assumption].
  - destruct s as [|c s]; [discriminate|].
    destruct (p c) eqn:Hc; [|discriminate].
    intros H; exists [c], s; repeat split; [now constructor | assumption].
  - intros H; apply max_repeat_sound in H as (w & s' & -> & Hw & Hk).
    exists w, s'; repeat split; [now constructor | assumption].
  - intros H; apply min_repeat_sound in H as (w & s' & -> & Hw & Hk).
    exists w, s'; repeat split; [now constructor | assumption].
  - intros H; apply branch_sound in H as (l & s' & -> & Hin & Hk).
    exists l, s'; repeat split; [now constructor | assumption].
Qed.
End AtomSound.

Lemma match_here_sound (pat : pattern) (groups : list str) (s : str)
  (groups' : list str) (rest : str) :
  match_here pat groups s = Some (groups', rest) ->
  exists taken new,
    s = taken ++ rest /\ groups' = groups ++ new /\ matches pat taken new.
Proof.
  revert groups s; induction pat as [|[a|a] pat IH]; intros groups s; simpl.
  - intros [= <- <-]; exists [], []; rewrite app_nil_r.
    repeat split; constructor.
  - intros H; apply match_atom_sound in H as (w & s' & -> & Ha & H).
    apply IH in H as (taken & new & -> & -> & Hm).
    exists (w ++ taken), new.
    repeat split; [now rewrite app_assoc | now constructor].
  - intros H; apply match_atom_sound in H as (w & s' & -> & Ha & H).
    apply IH in H as (taken & new & -> & -> & Hm).
    exists (w ++ taken), (w :: new).
    repeat split;
      [now rewrite app_assoc | now rewrite <- app_assoc | now constructor].
Qed.

Lemma search_sound (pat : pattern) (s : str) (groups : list str) (rest : str) :
  search pat s = Some (groups, rest) ->
  exists before taken,
    s = before ++ taken ++ rest /\ matches pat taken groups.
Proof.
  induction s as [|c s IH]; simpl.
  - destruct (match_here pat [] []) as [[g r]|] eqn:E; [|discriminate].
    intros [= <- <-]. apply match_here_sound in E as (taken & new & E & -> & Hm).
    exists [], taken; auto.
  - destruct (match_here pat [] (c :: s)) as [[g r]|] eqn:E.
    + intros [= <- <-].
      apply match_here_sound in E as (taken & new & E & -> & Hm).
      exists [], taken; auto.
    + intros H; apply IH in H as (before & taken & -> & Hm).
      exists (c :: before), taken; auto.
Qed.

(** *** Patterns that begin with a literal *)

Lemma matches_begin (l : str) (pat : pattern) (taken : str) (groups : list str) :
  matches (Plain (Literal l) :: pat) taken groups ->
  exists t, taken = l ++ t /\ matches pat t groups.
Proof.
  inversion 1 as [| a pat' w t gs Ha Hm |]; subst.
  inversion Ha; subst. now exists t.
Qed.

Lemma match_here_begin (l : str) (pat : pattern) (groups : list str) (s : str) :
  startswith l s = false ->
  match_here (Plain (Literal l) :: pat) groups s = None.
Proof.
  intros H; simpl; unfold literal. now rewrite (startswith_false _ _ H).
Qed.

Lemma search_begin (l : str) (pat : pattern) (s : str) :
  contains l s = false -> search (Plain (Literal l) :: pat) s = None.
Proof.
  intros H. induction s as [|c s IH].
  - cbn [search]. now rewrite match_here_begin by now apply contains_false_startswith.
  - cbn [search]. rewrite match_here_begin by now apply contains_false_startswith.
    apply IH. now apply (contains_false_suffix l [c] s).
Qed.

Lemma search_shorter (c : char) (l : str) (pat : pattern) (s : str)
  (groups : list str) (rest : str) :
  search (Plain (Literal (c :: l)) :: pat) s = Some (groups, rest) ->
  List.length rest < List.length s.
Proof.
  intros H; apply search_sound in H as (before & taken & -> & Hm).
  apply matches_begin in Hm as (t & -> & _).
  rewrite !length_app; simpl; lia.
Qed.

Lemma findall_loop_fuel (c : char) (l : str) (pat : pattern) (n m : nat)
  (s : str) :
  List.length s <= n -> List.length s <= m ->
  findall_loop n (Plain (Literal (c :: l)) :: pat) s =
  findall_loop m (Plain (Literal (c :: l)) :: pat) s.
Proof.
  revert m s; induction n as [|n IH]; intros m s Hn Hm; destruct m as [|m];
    cbn [findall_loop]; try reflexivity;
    destruct (search _ s) as [[g rest]|] eqn:E; try reflexivity.
  - apply search_shorter in E; lia.
  - apply search_shorter in E; lia.
  - f_equal. apply search_shorter in E. apply IH; lia.
Qed.

(** One round of [findall]. *)
Lemma findall_unfold (c : char) (l : str) (pat : pattern) (s : str) :
  let p := Plain (Literal (c :: l)) :: pat in
  findall p s =
  match search p s with
  | None => []
  | Some (groups, rest) => groups :: findall p rest
  end.
Proof.
  intros p; unfold findall. destruct s as [|x s].
  - simpl List.length; cbn [findall_loop].
    destruct (search p []) as [[g rest]|] eqn:E; [|reflexivity].
    apply search_shorter in E; simpl in E; lia.
  - simpl List.length; cbn [findall_loop].
    destruct (search p (x :: s)) as [[g rest]|] eqn:E; [|reflexivity].
    f_equal. apply search_shorter in E. simpl in E.
    apply findall_loop_fuel; lia.
Qed.

(** Induction along the rounds of [findall]. *)
Lemma findall_ind (c : char) (l : str) (pat : pattern)
  (P : str -> list (list str) -> Prop) :
  let p := Plain (Literal (c :: l)) :: pat in
  (forall s, search p s = None -> P s []) ->
  (forall s groups rest ms,
      search p s = Some (groups, rest) -> P rest ms -> P s (groups :: ms)) ->
  forall s, P s (findall p s).
Proof.
  intros p Hnone Hsome s.
  remember (List.length s) as n eqn:Hn.
  assert (Hle : List.length s <= n) by lia. clear Hn.
  revert s Hle; induction n as [|n IH]; intros s Hle;
    unfold p; rewrite findall_unfold; fold p;
    destruct (search p s) as [[g rest]|] eqn:E; auto.
  - apply search_shorter in E; lia.
  - apply (Hsome s g rest); [assumption|]. apply IH.
    apply search_shorter in E; lia.
Qed.

Lemma findall_sound (c : char) (l : str) (pat : pattern) (s : str) :
  let p := Plain (Literal (c :: l)) :: pat in
  Forall (fun groups => exists taken, matches p taken groups) (findall p s).
Proof.
  intros p. apply (@findall_ind c l pat
    (fun _ ms => Forall (fun groups => exists taken, matches p taken groups) ms)).
  - constructor.
  - intros t g rest ms E IH; constructor; [|assumption].
    apply search_sound in E as (before & taken & _ & Hm). now exists taken.
Qed.

Lemma occurrences_app_self (sub x : str) :
  sub <> [] -> S (occurrences sub x) <= occurrences sub (sub ++ x).
Proof.
  destruct sub as [|c sub]; [congruence|]; intros _.
  change ((c :: sub) ++ x) with (c :: sub ++ x). cbn [occurrences].
  change (c :: sub ++ x) with ((c :: sub) ++ x). rewrite startswith_app.
  pose proof (occurrences_suffix (c :: sub) sub x). lia.
Qed.

(** A match uses up one place where the leading literal begins. *)
Lemma findall_count (c : char) (l : str) (pat : pattern) (s : str) :
  List.length (findall (Plain (Literal (c :: l)) :: pat) s)
  <= occurrences (c :: l) s.
Proof.
  apply (@findall_ind c l pat
    (fun t ms => List.length ms <= occurrences (c :: l) t)).
  - simpl; lia.
  - intros t g rest ms E IH. apply search_sound in E as (before & taken & -> & Hm).
    apply matches_begin in Hm as (u & -> & _). cbn [List.length].
    rewrite <- app_assoc.
    etransitivity; [|apply occurrences_suffix].
    etransitivity; [|apply occurrences_app_self; discriminate].
    apply le_n_S. etransitivity; [exact IH | apply occurrences_suffix].
Qed.

(** *** How the matcher runs on a text of a known shape *)

Section AtomRun.
Context {R : Type} (k : str -> str -> option R).

Lemma literal_app (l s : str) : literal k l (l ++ s) = k l s.
Proof. unfold literal; now rewrite removeprefix_app. Qed.

(** The greedy star takes the whole run when what follows matches there. *)
Lemma max_repeat_run (p : char -> bool) (w s taken : str) (r : R) :
  forallb p w = true ->
  match s with c :: _ => p c = false | [] => True end ->
  k (taken ++ w) s = Some r ->
  max_repeat k p taken (w ++ s) = Some r.
Proof.
  revert taken; induction w as [|c w IH]; intros taken Hw Hs Hk.
  - rewrite (app_nil_r taken) in Hk. simpl.
    destruct s as [|c s]; simpl; [assumption|]. now rewrite Hs.
  - simpl in Hw; apply andb_true_iff in Hw as [Hc Hw].
    simpl; rewrite Hc, (IH (taken ++ [c])); auto.
    now rewrite <- app_assoc.
Qed.

(** The greedy star fails when what follows fails behind every part of
    the run. *)
Lemma max_repeat_fails (p : char -> bool) (s taken : str) :
  (forall w1 w2, s = w1 ++ w2 -> forallb p w1 = true ->
                 k (taken ++ w1) w2 = None) ->
  max_repeat k p taken s = None.
Proof.
  revert taken; induction s as [|c s IH]; intros taken H.
  - simpl. specialize (H [] [] eq_refl eq_refl).
    now rewrite (app_nil_r taken) in H.
  - assert (H0 : k taken (c :: s) = None).
    { specialize (H [] (c :: s) eq_refl eq_refl).
      now rewrite (app_nil_r taken) in H. }
    simpl. destruct (p c) eqn:Hc; [|assumption].
    rewrite IH; [assumption|].
    intros w1 w2 -> Hw. rewrite <- app_assoc.
    apply (H (c :: w1) w2); [reflexivity|]. simpl; now rewrite Hc.
Qed.

(** The lazy star stops at the first place where what follows matches. *)
Lemma min_repeat_run (p : char -> bool) (w s taken : str) (r : R) :
  forallb p w = true ->
  (forall w1 w2, w = w1 ++ w2 -> w2 <> [] ->
                 k (taken ++ w1) (w2 ++ s) = None) ->
  k (taken ++ w) s = Some r ->
  min_repeat k p taken (w ++ s) = Some r.
Proof.
  revert taken; induction w as [|c w IH]; intros taken Hw Hnone Hk.
  - rewrite (app_nil_r taken) in Hk. simpl.
    destruct s as [|c s]; simpl; now rewrite Hk.
  - simpl in Hw; apply andb_true_iff in Hw as [Hc Hw].
    assert (H0 : k taken (c :: w ++ s) = None).
    { specialize (Hnone [] (c :: w) eq_refl ltac:(discriminate)).
      now rewrite (app_nil_r taken) in Hnone. }
    simpl; rewrite H0, Hc. apply IH; auto.
    + intros w1 w2 -> Hw2. rewrite <- app_assoc.
      now apply (Hnone (c :: w1) w2).
    + now rewrite <- app_assoc.
Qed.
End AtomRun.

Lemma match_here_literal (l : str) (pat : pattern) (groups : list str)
  (s : str) :
  match_here (Plain (Literal l) :: pat) groups (l ++ s)
  = match_here pat groups s.
Proof. simpl; now rewrite literal_app. Qed.

Lemma match_here_space (w : str) (pat : pattern) (groups : list str) (s : str)
  (r : list str * str) :
  whitespace w = true -> starts_nonspace s = true ->
  match_here pat groups s = Some r ->
  match_here (Plain (MaxRepeat isspace) :: pat) groups (w ++ s) = Some r.
Proof.
  intros Hw Hs Hk. simpl. apply max_repeat_run; auto.
  destruct s as [|c s]; [exact I|]. simpl in Hs. now apply negb_true_iff.
Qed.

Lemma match_here_lazy (w : str) (pat : pattern) (groups : list str) (s : str)
  (r : list str * str) :
  (forall w1 w2, w = w1 ++ w2 -> w2 <> [] ->
                 match_here pat (groups ++ [w1]) (w2 ++ s) = None) ->
  match_here pat (groups ++ [w]) s = Some r ->
  match_here (Group (MinRepeat any) :: pat) groups (w ++ s) = Some r.
Proof.
  intros Hnone Hk. simpl. apply min_repeat_run; auto.
  now apply forallb_forall.
Qed.

Lemma match_here_digit (c : char) (pat : pattern) (groups : list str)
  (s : str) :
  isdecimal c = true ->
  match_here (Group (Category isdecimal) :: pat) groups (c :: s)
  = match_here pat (groups ++ [[c]]) s.
Proof. intros H; simpl; now rewrite H. Qed.

Lemma match_here_space_fails (pat : pattern) (groups : list str) (t : str) :
  (forall w1 w2, t = w1 ++ w2 -> whitespace w1 = true ->
                 match_here pat groups w2 = None) ->
  match_here (Plain (MaxRepeat isspace) :: pat) groups t = None.
Proof.
  intros H.
  change (max_repeat (fun _ s' => match_here pat groups s') isspace [] t = None).
  apply max_repeat_fails. intros w1 w2 E Hw. now apply (H w1 w2).
Qed.

Lemma match_here_category (p : char -> bool) (pat : pattern)
  (groups : list str) (s : str) :
  match_here (Group (Category p) :: pat) groups s =
  match s with
  | c :: s' => if p c then match_here pat (groups ++ [[c]]) s' else None
  | [] => None
  end.
Proof. reflexivity. Qed.

(** White space and then a literal: no match unless the literal stands
    right behind the leading white space. *)
Lemma space_literal_fails (l : str) (pat : pattern) (groups : list str)
  (t : str) :
  starts_nonspace l = true ->
  startswith l (lstrip t) = false ->
  match_here (Plain (MaxRepeat isspace) :: Plain (Literal l) :: pat) groups t
  = None.
Proof.
  intros Hl Ht. apply match_here_space_fails. intros w1 w2 -> Hw.
  apply match_here_begin.
  destruct (startswith l w2) eqn:E; [|reflexivity].
  apply startswith_true in E as [r ->].
  rewrite lstrip_whitespace, lstrip_starts, startswith_app in Ht;
    [discriminate | now apply starts_nonspace_app | assumption].
Qed.

(** White space, a digit, white space and a literal: no match unless the
    first character behind the leading white space is a digit and the
    literal stands right behind the white space after it. *)
Lemma space_digit_space_literal_fails (l : str) (pat : pattern)
  (groups : list str) (t : str) :
  starts_nonspace l = true ->
  match lstrip t with
  | [] => True
  | c :: t' => isdecimal c = false \/ startswith l (lstrip t') = false
  end ->
  match_here (Plain (MaxRepeat isspace) :: Group (Category isdecimal)
              :: Plain (MaxRepeat isspace) :: Plain (Literal l) :: pat)
    groups t = None.
Proof.
  intros Hl Ht. apply match_here_space_fails. intros w1 w2 -> Hw.
  rewrite lstrip_whitespace in Ht by assumption.
  rewrite match_here_category.
  destruct w2 as [|c w2]; [reflexivity|].
  destruct (isdecimal c) eqn:Hc; [|reflexivity].
  pose proof (decimal_not_space _ Hc) as Hs.
  simpl in Ht; rewrite Hs in Ht.
  destruct Ht as [Ht | Ht]; [congruence|].
  now apply space_literal_fails.
Qed.

Lemma search_hit (pat : pattern) (s : str) (m : list str * str) :
  match_here pat [] s = Some m -> search pat s = Some m.
Proof. intros H; destruct s; simpl; now rewrite H. Qed.

(** *** The pattern of [parse_questions] on a well-shaped block *)

(** Behind a piece that does not hold the marker [m] and ends in a
    character that is no white space, [m] cannot begin unless the text [y]
    that follows supplies one of its later characters. *)
Lemma marker_not_behind (m f1 f2 y : str) :
  contains m (f1 ++ f2) = false ->
  ends_nonspace f2 = true ->
  (forall c y', y = c :: y' -> ~ List.In c (tl m)) ->
  startswith m (lstrip (f2 ++ y)) = false.
Proof.
  intros Hm He Hy.
  destruct (lstrip_app_ends f2 y He) as [-> Hs].
  destruct (startswith m (lstrip f2 ++ y)) eqn:E; [|reflexivity].
  apply startswith_app_inv in E as [E | (c & y' & -> & [E | E])].
  - destruct (lstrip_suffix f2) as (w & Ew & _).
    rewrite Ew, app_assoc in Hm. apply contains_false_suffix in Hm.
    apply contains_false_startswith in Hm. congruence.
  - rewrite E in Hs; discriminate.
  - exfalso; now apply (Hy c y').
Qed.

Lemma head_behind_space (w s : str) (c : char) (y' : str) :
  whitespace w = true -> w ++ s = c :: y' ->
  isspace c = true \/ exists s', s = c :: s'.
Proof.
  destruct w as [|x w]; simpl.
  - intros _ ->; right; now exists y'.
  - unfold whitespace; simpl. intros H [= -> _].
    apply andb_true_iff in H as [H _]; now left.
Qed.

Lemma decimal_not_in_markers (c : char) :
  isdecimal c = true ->
  ~ List.In c OptionsEnd /\ ~ List.In c Start /\ ~ List.In c End_.
Proof.
  intros H.
  assert (Hc : forallb (fun x => negb (char_eqb c x))
                 (OptionsEnd ++ Start ++ End_) = true)
    by (revert c H; apply decimal_table; vm_compute; reflexivity).
  rewrite forallb_forall in Hc.
  repeat split; intros Hin;
    (assert (Hin' : List.In c (OptionsEnd ++ Start ++ End_))
       by (rewrite !in_app_iff; tauto));
    apply Hc in Hin'; rewrite char_eqb_refl in Hin'; discriminate.
Qed.

Lemma space_not_in_markers (c : char) :
  isspace c = true ->
  ~ List.In c OptionsEnd /\ ~ List.In c Start /\ ~ List.In c End_.
Proof.
  intros H; repeat split; intros Hin; vm_compute in Hin;
    repeat (destruct Hin as [<- | Hin]; [vm_compute in H; discriminate|]);
    contradiction.
Qed.

Lemma in_tl {A} (x : A) (l : list A) : List.In x (tl l) -> List.In x l.
Proof. destruct l; simpl; auto. Qed.

Section Block.
Variables (g1 q g2 g3 g4 o g5 : str) (d : char) (g6 rest : str).
Hypothesis Hg1 : whitespace g1 = true.
Hypothesis Hg2 : whitespace g2 = true.
Hypothesis Hg3 : whitespace g3 = true.
Hypothesis Hg4 : whitespace g4 = true.
Hypothesis Hg5 : whitespace g5 = true.
Hypothesis Hg6 : whitespace g6 = true.
Hypothesis Hq : tidy q = true.
Hypothesis HqEnd : contains End_ q = false.
Hypothesis Ho : tidy o = true.
Hypothesis HoEnd : contains OptionsEnd o = false.
Hypothesis Hd : isdecimal d = true.

(** Inside the question the rest of the pattern finds no [End:]. *)
Lemma question_not_cut (q1 q2 : str) (groups : list str) (pat : pattern) :
  q = q1 ++ q2 -> q2 <> [] ->
  match_here (Plain (MaxRepeat isspace) :: Plain (Literal End_) :: pat)
    groups (q2 ++ g2 ++ End_ ++ g3 ++ OptionsStart ++ g4 ++ o ++ g5
            ++ d :: g6 ++ OptionsEnd ++ rest) = None.
Proof.
  intros E Hq2. apply space_literal_fails; [reflexivity|].
  apply (@marker_not_behind End_ q1 q2).
  - now rewrite <- E.
  - apply andb_true_iff in Hq as [_ He].
    rewrite E, ends_nonspace_app in He; assumption.
  - intros c y' Ey Hin.
    apply head_behind_space in Ey as [Hs | [s' Ey]]; [| |assumption].
    + apply in_tl in Hin.
      now apply (proj2 (proj2 (space_not_in_markers c Hs))).
    + injection Ey as <- _. vm_compute in Hin. intuition discriminate.
Qed.

(** Inside the options the rest of the pattern finds no digit followed
    by [OptionsEnd:]. *)
Lemma options_not_cut (o1 o2 : str) (groups : list str) (pat : pattern) :
  o = o1 ++ o2 -> o2 <> [] ->
  match_here (Plain (MaxRepeat isspace) :: Group (Category isdecimal)
              :: Plain (MaxRepeat isspace) :: Plain (Literal OptionsEnd)
              :: pat)
    groups (o2 ++ g5 ++ d :: g6 ++ OptionsEnd ++ rest) = None.
Proof.
  intros E Ho2. apply space_digit_space_literal_fails; [reflexivity|].
  assert (He : ends_nonspace o2 = true).
  { apply andb_true_iff in Ho as [_ He].
    rewrite E, ends_nonspace_app in He; assumption. }
  destruct (lstrip_app_ends o2 (g5 ++ d :: g6 ++ OptionsEnd ++ rest) He)
    as [-> Hs].
  destruct (lstrip_suffix o2) as (w & Ew & _).
  destruct (lstrip o2) as [|c o3] eqn:El; [discriminate|].
  cbn [app]. destruct (isdecimal c) eqn:Hc; [right | now left].
  destruct o3 as [|c' o3'].
  - cbn [app]. rewrite lstrip_whitespace by assumption.
    rewrite lstrip_starts by (simpl; now rewrite (decimal_not_space _ Hd)).
    destruct (startswith OptionsEnd (d :: g6 ++ OptionsEnd ++ rest)) eqn:S;
      [|reflexivity].
    apply startswith_true in S as [r S]. injection S as -> _.
    vm_compute in Hd; discriminate.
  - apply (@marker_not_behind OptionsEnd (o1 ++ w ++ [c]) (c' :: o3')).
    + rewrite <- !app_assoc. cbn [app]. now rewrite <- Ew, <- E.
    + rewrite Ew in He.
      change (w ++ c :: c' :: o3') with (w ++ [c] ++ c' :: o3') in He.
      rewrite app_assoc, ends_nonspace_app in He; [assumption | discriminate].
    + intros x y' Ey Hin. apply in_tl in Hin.
      apply head_behind_space in Ey as [Hx | [s' Ey]]; [| |assumption].
      * now apply (proj1 (space_not_in_markers x Hx)).
      * injection Ey as <- _. now apply (proj1 (decimal_not_in_markers d Hd)).
Qed.

Lemma match_here_block :
  match_here questions_pattern []
    (Start ++ g1 ++ q ++ g2 ++ End_ ++ g3 ++ OptionsStart ++ g4 ++ o ++ g5
     ++ d :: g6 ++ OptionsEnd ++ rest)
  = Some ([q; o; [d]], rest).
Proof.
  pose proof Hq as Hq'. apply andb_true_iff in Hq' as [Hqs _].
  pose proof Ho as Ho'. apply andb_true_iff in Ho' as [Hos _].
  unfold questions_pattern. rewrite match_here_literal.
  apply match_here_space; [assumption | now apply starts_nonspace_app |].
  apply match_here_lazy; [intros q1 q2; apply question_not_cut|].
  apply match_here_space; [assumption | reflexivity |].
  rewrite match_here_literal.
  apply match_here_space; [assumption | reflexivity |].
  rewrite match_here_literal.
  apply match_here_space; [assumption | now apply starts_nonspace_app |].
  apply match_here_lazy; [intros o1 o2; apply options_not_cut|].
  apply match_here_space;
    [assumption | simpl; now rewrite (decimal_not_space _ Hd) |].
  rewrite match_here_digit by assumption.
  apply match_here_space; [assumption | reflexivity |].
  rewrite match_here_literal. reflexivity.
Qed.
End Block.

End ReFacts.

Import ReFacts.

(* ================================================================== *)
(** ** Facts about the parsers                                          *)
(* ================================================================== *)

Module ParserFacts.

Lemma for_each_appends {A B} (body : A -> list B -> res (list B))
  (xs : list A) (rs : list (list B)) (acc : list B) :
  Forall2 (fun x r => forall acc, body x acc = Ok (acc ++ r)) xs rs ->
  for_each xs body acc = Ok (acc ++ concat rs).
Proof.
  intros H; revert acc; induction H as [|x r xs rs Hx _ IH]; intros acc; simpl.
  - now rewrite app_nil_r.
  - rewrite Hx; simpl. rewrite IH. now rewrite app_assoc.
Qed.

Lemma concat_singletons {A B} (f : A -> B) (l : list A) :
  concat (map (fun x => [f x]) l) = map f l.
Proof. induction l as [|x l IH]; simpl; [reflexivity | now rewrite IH]. Qed.

Lemma Forall_pick {A B} (Q : A -> B -> Prop) (xs : list A) :
  Forall (fun x => exists r, Q x r) xs -> exists rs, Forall2 Q xs rs.
Proof.
  induction 1 as [|x xs [r Hr] _ [rs IH]].
  - exists []; constructor.
  - exists (r :: rs); now constructor.
Qed.

(** *** The groups of a match *)

Ltac invert_matches :=
  repeat match goal with
    | H : matches (_ :: _) _ _ |- _ => inversion H; clear H; subst
    | H : matches [] _ _ |- _ => inversion H; clear H; subst
    end;
  repeat match goal with
    | H : atom_takes (Category _) _ |- _ => inversion H; clear H; subst
    | H : atom_takes (Branch _) _ |- _ => inversion H; clear H; subst
    end.

Lemma questions_pattern_groups (taken : str) (groups : list str) :
  matches questions_pattern taken groups ->
  exists g1 g2 d, groups = [g1; g2; [d]] /\ isdecimal d = true.
Proof.
  unfold questions_pattern; intros H. invert_matches. eauto.
Qed.

Lemma true_false_pattern_groups (taken : str) (groups : list str) :
  matches true_false_pattern taken groups ->
  exists g1 a, groups = [g1; a] /\ (a = lit "1" \/ a = lit "0").
Proof.
  unfold true_false_pattern; intros H. invert_matches.
  match goal with H : List.In _ _ |- _ => simpl in H end.
  intuition (subst; eauto).
Qed.

Lemma findall_questions_unfold (s : str) :
  findall questions_pattern s =
  match search questions_pattern s with
  | None => []
  | Some (groups, rest) => groups :: findall questions_pattern rest
  end.
Proof. exact (@findall_unfold 83%N (lit "tart:") _ s). Qed.

Lemma findall_questions_sound (s : str) :
  Forall (fun groups => exists g1 g2 d,
              groups = [g1; g2; [d]] /\ isdecimal d = true)
    (findall questions_pattern s).
Proof.
  pose proof (@findall_sound 83%N (lit "tart:") (tl questions_pattern) s) as H.
  cbv zeta in H. eapply Forall_impl; [|exact H].
  intros g [taken Hm]. now apply (questions_pattern_groups (taken := taken)).
Qed.

Lemma findall_true_false_sound (s : str) :
  Forall (fun groups => exists g1 a,
              groups = [g1; a] /\ (a = lit "1" \/ a = lit "0"))
    (findall true_false_pattern s).
Proof.
  pose proof (@findall_sound 83%N (lit "tart:") (tl true_false_pattern) s) as H.
  cbv zeta in H. eapply Forall_impl; [|exact H].
  intros g [taken Hm]. now apply (true_false_pattern_groups (taken := taken)).
Qed.

(** *** The loop bodies *)

Lemma option_lines_nonempty (t : str) :
  Forall (fun o => o <> []) (option_lines t).
Proof.
  unfold option_lines. apply Forall_forall. intros o Ho.
  apply in_map_iff in Ho as (x & <- & Hx).
  apply filter_In in Hx as [_ Hx]. apply negb_true_iff in Hx.
  intros E. rewrite E in Hx. discriminate.
Qed.

Lemma digit_value_int (d : char) :
  isdecimal d = true -> int [d] = Ok (digit_value d).
Proof.
  intros H. destruct (decimal_value d H) as (v & Hv & _ & Hi).
  unfold digit_value. now rewrite Hv.
Qed.

Lemma questions_body_value (g1 g2 : str) (d : char)
  (acc : list MultipleChoice) :
  isdecimal d = true ->
  questions_body [g1; g2; [d]] acc =
  Ok (acc ++
      if List.length (option_lines (strip g2)) =? 4
      then [ {| question := strip g1;
                options := option_lines (strip g2);
                correctOptionIndex := digit_value d |} ]
      else []).
Proof.
  intros H. unfold questions_body. cbn [getitem nth_error bind].
  rewrite (digit_value_int d H). cbn [bind].
  destruct (List.length (option_lines (strip g2)) =? 4); simpl;
    [reflexivity | now rewrite app_nil_r].
Qed.

Lemma true_false_body_value (g1 a : str) (acc : list TrueFalse) :
  a = lit "1" \/ a = lit "0" ->
  exists v, (v = 1 \/ v = 0)%Z /\ int a = Ok v /\
    true_false_body [g1; a] acc
    = Ok (acc ++ [ {| tf_question := strip g1; answer := v |} ]).
Proof.
  intros [-> | ->]; [exists 1%Z | exists 0%Z];
    (split; [auto|]; split; [reflexivity|]);
    unfold true_false_body; cbn [getitem nth_error bind];
    reflexivity.
Qed.

Lemma split_nonempty (c : char) (sep s : str) :
  split (c :: sep) s = Ok (split_loop (List.length s) (c :: sep) s).
Proof. reflexivity. Qed.

Lemma split_Start (s : str) :
  split Start s = Ok (split_loop (List.length s) Start s).
Proof. reflexivity. Qed.

Lemma split_End (s : str) :
  split End_ s = Ok (split_loop (List.length s) End_ s).
Proof. reflexivity. Qed.

Lemma Start_not_nil : Start <> [].
Proof. discriminate. Qed.

Lemma End_not_nil : End_ <> [].
Proof. discriminate. Qed.

Lemma open_body_value (part : str) (acc : list str) :
  open_body part acc =
  Ok (acc ++ [strip (match find End_ part with
                     | Some i => firstn i part
                     | None => part
                     end)]).
Proof.
  unfold open_body. rewrite split_End. cbn [bind]. unfold getitem.
  rewrite (split_head part End_not_nil). reflexivity.
Qed.

(** *** [Start:] does not overlap itself *)

Lemma occurrences_Start_app (r : str) :
  occurrences Start (Start ++ r) = S (occurrences Start r).
Proof. reflexivity. Qed.

Lemma occurrences_find_Start (s : str) (i : nat) :
  find Start s = Some i ->
  occurrences Start s =
  S (occurrences Start (skipn (i + List.length Start) s)).
Proof.
  revert i; induction s as [|c s IH]; intros i Hf.
  - simpl in Hf; discriminate.
  - destruct (startswith Start (c :: s)) eqn:E.
    + assert (i = 0) as -> by (cbn [find] in Hf; rewrite E in Hf; congruence).
      apply startswith_true in E as [r E]. rewrite E. reflexivity.
    + cbn [find] in Hf; rewrite E in Hf.
      destruct (find Start s) as [j|]; [|discriminate].
      injection Hf as <-. cbn [occurrences]. rewrite E, (IH j eq_refl).
      reflexivity.
Qed.

Lemma split_Start_length (s : str) :
  List.length (split_loop (List.length s) Start s) = S (occurrences Start s).
Proof.
  apply (@split_ind Start
    (fun t parts => List.length parts = S (occurrences Start t)) Start_not_nil).
  - intros t E. now rewrite occurrences_find_None.
  - intros t i parts E IH. simpl List.length. rewrite IH.
    now rewrite (occurrences_find_Start t E).
Qed.

(** *** A text of well-shaped blocks *)

Lemma search_skip_lead (pat : pattern) (before t : str) :
  contains Start before = false ->
  search (Plain (Literal Start) :: pat) (before ++ Start ++ t)
  = search (Plain (Literal Start) :: pat) (Start ++ t).
Proof.
  induction before as [|c before IH]; intros H; [reflexivity|].
  change ((c :: before) ++ Start ++ t) with (c :: before ++ Start ++ t).
  cbn [search]. rewrite match_here_begin.
  - apply IH. now apply (contains_false_suffix Start [c] before).
  - change (c :: before ++ Start ++ t) with ((c :: before) ++ Start ++ t).
    destruct (startswith Start ((c :: before) ++ Start ++ t)) eqn:E;
      [|reflexivity].
    apply startswith_app_inv in E as [E | (x & y' & Ey & [E | E])].
    + apply contains_false_startswith in H. congruence.
    + discriminate.
    + injection Ey as <- _. vm_compute in E. intuition discriminate.
Qed.

Lemma join_tidy (lines : list str) :
  lines <> [] -> Forall (fun o => tidy o = true) lines ->
  tidy (join newline lines) = true.
Proof.
  intros Hne H; induction H as [|o os Ho Hos IH]; [congruence|].
  destruct os as [|o' os]; [exact Ho|].
  change (join newline (o :: o' :: os))
    with (o ++ newline ++ join newline (o' :: os)).
  specialize (IH ltac:(discriminate)).
  unfold tidy in *. apply andb_true_iff in Ho as [Hs _].
  apply andb_true_iff in IH as [_ He].
  apply andb_true_iff; split; [now apply starts_nonspace_app|].
  rewrite app_assoc, ends_nonspace_app; [assumption|].
  now apply ends_nonspace_not_nil.
Qed.

Lemma option_lines_join (lines : list str) :
  Forall (fun o => tidy o = true /\ single_line o = true) lines ->
  option_lines (join newline lines) = lines.
Proof.
  intros H. unfold option_lines, newline. rewrite splitlines_join.
  - induction H as [|o os [Ho _] _ IH]; [reflexivity|].
    cbn [filter]. rewrite (tidy_strip o Ho).
    destruct o as [|c o]; [discriminate|]. cbn [str_eqb negb map].
    rewrite (tidy_strip (c :: o) Ho). f_equal. exact IH.
  - eapply Forall_impl; [|exact H]. intros o [Ho Hl]; split; [|assumption].
    now apply tidy_not_nil.
Qed.

Lemma well_shaped_shape (b : block) : well_shaped b = true -> shape b.
Proof.
  unfold well_shaped; intros H.
  repeat match goal with
    | H : _ && _ = true |- _ => apply andb_true_iff in H as [? ?]
    | H : negb _ = true |- _ => apply negb_true_iff in H
    end.
  constructor; try assumption.
  - intros E; rewrite E in *; discriminate.
  - apply Forall_forall. intros o Ho.
    match goal with H : forallb _ _ = true |- _ =>
      rewrite forallb_forall in H; specialize (H o Ho);
      now apply andb_true_iff in H end.
Qed.

Lemma search_block (b : block) (rest : str) :
  well_shaped b = true ->
  search questions_pattern (render b ++ rest)
  = Some ([b_question b; join newline (b_options b); [b_digit b]], rest).
Proof.
  intros H; apply well_shaped_shape in H; destruct H.
  unfold render. rewrite <- !app_assoc.
  unfold questions_pattern at 1. rewrite search_skip_lead by assumption.
  apply search_hit. fold questions_pattern.
  change ((b_digit b :: gap6 b ++ OptionsEnd) ++ rest)
    with (b_digit b :: (gap6 b ++ OptionsEnd) ++ rest).
  rewrite <- !app_assoc.
  apply match_here_block; try assumption.
  apply join_tidy; [assumption|].
  eapply Forall_impl; [|eassumption]. now intros o [Ho _].
Qed.

Lemma findall_blocks (bs : list block) (trail : str) :
  forallb well_shaped bs = true ->
  contains Start trail = false ->
  findall questions_pattern (concat (map render bs) ++ trail)
  = map (fun b => [b_question b; join newline (b_options b); [b_digit b]]) bs.
Proof.
  intros Hbs Htrail; induction bs as [|b bs IH].
  - simpl. rewrite findall_questions_unfold.
    unfold questions_pattern. now rewrite search_begin.
  - simpl in Hbs; apply andb_true_iff in Hbs as [Hb Hbs].
    simpl. rewrite <- app_assoc, findall_questions_unfold.
    rewrite (search_block _ _ Hb). f_equal. now apply IH.
Qed.

Lemma questions_body_block (b : block) (acc : list MultipleChoice) :
  well_shaped b = true ->
  questions_body [b_question b; join newline (b_options b); [b_digit b]] acc
  = Ok (acc ++ if four_options b then [record_of b] else []).
Proof.
  intros H; apply well_shaped_shape in H; destruct H.
  rewrite questions_body_value by assumption.
  rewrite (tidy_strip (b_question b)) by assumption.
  rewrite (tidy_strip (join newline (b_options b))).
  - rewrite option_lines_join by assumption. reflexivity.
  - apply join_tidy; [assumption|].
    eapply Forall_impl; [|eassumption]. now intros o [Ho _].
Qed.

(** In a text of well-shaped blocks, the blocks with four options give the
    records, in their order. *)
Lemma parse_questions_blocks (bs : list block) (trail : str) :
  forallb well_shaped bs = true ->
  contains Start trail = false ->
  parse_questions (concat (map render bs) ++ trail)
  = Ok (map record_of (filter four_options bs)).
Proof.
  intros Hbs Htrail. unfold parse_questions. cbv zeta.
  rewrite findall_blocks by assumption.
  rewrite (@for_each_appends _ _ questions_body _
             (map (fun b => if four_options b then [record_of b] else []) bs)).
  - simpl. f_equal. clear Hbs. induction bs as [|b bs IH]; [reflexivity|].
    simpl. destruct (four_options b); simpl; now rewrite IH.
  - clear Htrail. induction bs as [|b bs IH]; simpl; constructor.
    + simpl in Hbs; apply andb_true_iff in Hbs as [Hb _].
      intros acc. now apply questions_body_block.
    + simpl in Hbs; apply andb_true_iff in Hbs as [_ Hbs]. now apply IH.
Qed.

End ParserFacts.

Import ParserFacts.

(* ================================================================== *)
(** ** Facts about the requester                                        *)
(* ================================================================== *)

Module RequesterFacts.

Section Loop.
Context {RT : Runtime}.

Lemma stripped_content_Some (response : ChatCompletion) (c : str) :
  stripped_content response = Some c ->
  exists raw others,
    response = {| choices := Some raw :: others |} /\ c = strip raw.
Proof.
  destruct response as [[|[raw|] others]]; unfold stripped_content; simpl;
    try discriminate.
  intros [= <-]. now exists raw, others.
Qed.

Lemma loop_outcome_failed (m : str) (models : list str) (prompt : str)
  (o : outcome) (new : list attempt) (r : ModelAttemptResult) :
  failed {| called_model := m; called_prompt := prompt; ended := o |} ->
  loop_outcome models prompt new r ->
  loop_outcome (m :: models) prompt
    ({| called_model := m; called_prompt := prompt; ended := o |} :: new) r.
Proof.
  intros Hf [Hp H]; split; [now constructor|].
  destruct H as [(before & a & raw & others & rest & -> & Hb & -> & H)
                | (Hm & Hall & ->)].
  - left.
    exists ({| called_model := m; called_prompt := prompt; ended := o |}
            :: before), a, raw, others, rest.
    repeat split; try tauto. now constructor.
  - right. repeat split; [simpl; now rewrite Hm | now constructor].
Qed.

Lemma request_loop_outcome (models : list str) (prompt : str) (st : state) :
  exists new,
    attempts (snd (request_loop models prompt st)) = attempts st ++ new /\
    loop_outcome models prompt new (fst (request_loop models prompt st)).
Proof.
  revert st; induction models as [|m models IH]; intros st.
  - exists []; simpl; rewrite app_nil_r; split; [reflexivity|].
    split; [constructor|]. right; repeat split; constructor.
  - cbn [request_loop]. unfold seq, now, chat_completions_create, log, ret.
    cbn [world attempts logged].
    destruct (time_time (world st)) as [t0 w0].
    cbn [world attempts logged].
    destruct (create m prompt w0) as [o w1].
    set (a := {| called_model := m; called_prompt := prompt; ended := o |}).
    assert (Hstep : forall st',
               attempts st' = attempts st ++ [a] -> failed a ->
               exists new,
                 attempts (snd (request_loop models prompt st'))
                 = attempts st ++ new /\
                 loop_outcome (m :: models) prompt new
                   (fst (request_loop models prompt st'))).
    { intros st' Hst' Hf. destruct (IH st') as (new & Hnew & Hout).
      exists (a :: new); split.
      - rewrite Hnew, Hst', <- app_assoc. reflexivity.
      - now apply loop_outcome_failed. }
    destruct o as [response| |]; cbn [world attempts logged].
    + destruct (time_time w1) as [t1 w2].
      destruct (stripped_content response) as [c|] eqn:Ec.
      * exists [a]; split; [reflexivity|]. split; [now repeat constructor|].
        apply stripped_content_Some in Ec as (raw & others & -> & ->).
        left. exists [], a, raw, others, models.
        repeat split; constructor.
      * cbn [world attempts logged]. destruct (time_time w2) as [t2 w3].
        apply Hstep; [reflexivity | exact Ec].
    + destruct (time_time w1) as [t1 w2].
      apply Hstep; reflexivity.
    + destruct (time_time w1) as [t1 w2].
      apply Hstep; reflexivity.
Qed.
End Loop.

Lemma top_models_NoDup : NoDup top_models.
Proof.
  assert (H : forall l : list str,
             (fix nodup (l : list str) : bool :=
                match l with
                | [] => true
                | x :: l' => negb (existsb (str_eqb x) l') && nodup l'
                end) l = true -> NoDup l).
  { induction l as [|x l IH]; intros Hl; constructor.
    - apply andb_true_iff in Hl as [Hx _]. apply negb_true_iff in Hx.
      intros Hin. assert (existsb (str_eqb x) l = true); [|congruence].
      apply existsb_exists. exists x; split; [assumption|].
      clear; induction x; simpl; [reflexivity|].
      now rewrite char_eqb_refl.
    - apply andb_true_iff in Hl as [_ Hl]. now apply IH. }
  apply H. vm_compute. reflexivity.
Qed.

End RequesterFacts.

Import RequesterFacts.

(* ================================================================== *)
(** ** The requester                                                    *)
(* ================================================================== *)



(* ================================================================== *)
(** ** The parsers                                                      *)
(* ================================================================== *)

(** What one match of [questions_pattern] adds to the records. *)
Lemma questions_per_match (text : str) :
  exists per_match : list (list MultipleChoice),
    parse_questions text = Ok (concat per_match) /\
    Forall2
      (fun match_ records =>
         exists g1 g2 d,
           match_ = [g1; g2; [d]] /\ isdecimal d = true /\
           records =
             if List.length (option_lines (strip g2)) =? 4
             then [ {| question := strip g1;
                       options := option_lines (strip g2);
                       correctOptionIndex := digit_value d |} ]
             else [])
      (findall questions_pattern text) per_match.
Proof.
  destruct (@Forall_pick _ _
    (fun match_ records =>
       exists g1 g2 d,
         match_ = [g1; g2; [d]] /\ isdecimal d = true /\
         records =
           if List.length (option_lines (strip g2)) =? 4
           then [ {| question := strip g1;
                     options := option_lines (strip g2);
                     correctOptionIndex := digit_value d |} ]
           else [])
    (findall questions_pattern text)) as [per_match H].
  { eapply Forall_impl; [|apply findall_questions_sound].
    intros m (g1 & g2 & d & -> & Hd). eexists; exists g1, g2, d; eauto. }
  exists per_match; split; [|exact H].
  unfold parse_questions; cbv zeta.
  rewrite (@for_each_appends _ _ questions_body _ per_match); [reflexivity|].
  eapply Forall2_impl; [|exact H].
  intros m r (g1 & g2 & d & -> & Hd & ->) acc.
  now apply questions_body_value.
Qed.

(** What one match of [true_false_pattern] adds to the records. *)
Lemma true_false_per_match (text : str) :
  exists records : list TrueFalse,
    parse_true_false_binary text = Ok records /\
    Forall2
      (fun match_ r =>
         exists g1 a,
           match_ = [g1; a] /\ (a = lit "1" \/ a = lit "0") /\
           tf_question r = strip g1 /\ int a = Ok (answer r) /\
           (answer r = 1 \/ answer r = 0)%Z)
      (findall true_false_pattern text) records.
Proof.
  destruct (@Forall_pick _ _
    (fun match_ r =>
       exists g1 a,
         match_ = [g1; a] /\ (a = lit "1" \/ a = lit "0") /\
         tf_question r = strip g1 /\ int a = Ok (answer r) /\
         (answer r = 1 \/ answer r = 0)%Z)
    (findall true_false_pattern text)) as [records H].
  { eapply Forall_impl; [|apply findall_true_false_sound].
    intros m (g1 & a & -> & Ha).
    destruct (true_false_body_value g1 [] Ha) as (v & Hv & Hi & _).
    exists {| tf_question := strip g1; answer := v |}, g1, a. auto. }
  exists records; split; [|exact H].
  unfold parse_true_false_binary; cbv zeta.
  rewrite (@for_each_appends _ _ true_false_body _ (map (fun r => [r]) records)).
  - rewrite (concat_singletons (fun r => r)), map_id. reflexivity.
  - clear -H. induction H as [|m r ms rs Hm _ IH]; simpl; constructor; auto.
    destruct Hm as (g1 & a & -> & Ha & Hq & Hi & _). intros acc.
    destruct (true_false_body_value g1 acc Ha) as (v & _ & Hi' & ->).
    rewrite Hi in Hi'. injection Hi' as <-. destruct r; simpl in *; congruence.
Qed.

(** What one fragment adds to the questions of [parse_open_questions]. *)
Lemma open_per_fragment (text : str) :
  parse_open_questions text
  = Ok (map (fun part => strip (match find End_ part with
                                | Some i => firstn i part
                                | None => part
                                end))
          (tl (split_loop (List.length text) Start text))).
Proof.
  unfold parse_open_questions. rewrite split_Start. cbn [bind].
  generalize (tl (split_loop (List.length text) Start text)); intros parts.
  rewrite (@for_each_appends _ _ open_body _
    (map (fun part => [strip (match find End_ part with
                              | Some i => firstn i part
                              | None => part
                              end)]) parts)).
  - now rewrite concat_singletons.
  - induction parts; simpl; constructor; auto.
    intros acc; apply open_body_value.
Qed.

(** C3 (the code does otherwise).  On ["Start: Q1"] the fragment behind
    [Start:] holds no [End:], and [parse_open_questions] does not skip it:
    the fragment is returned, stripped. *)
Theorem parse_open_questions_keeps_fragment_without_End :
  split Start (lit "Start: Q1") = Ok [[]; lit " Q1"] /\
  contains End_ (lit " Q1") = false /\
  parse_open_questions (lit "Start: Q1") = Ok [lit "Q1"].
Proof. repeat split; vm_compute; reflexivity. Qed.

(** C4.  A text made of well-formed multiple-choice blocks -- each with
    its four options on four lines -- and of nothing else that holds
    [Start:] gives one record per block, in the order of the blocks, with
    the question, the four options in order, and the value of the digit.
    On ["Start: Q1 End: OptionsStart: A\nB\nC\nD\n2 OptionsEnd:"] the
    result is the one record with question [Q1], options [A], [B], [C], [D]
    and index 2. *)
Theorem parse_questions_well_formed :
  (forall (bs : list block) (trail : str),
      forallb well_formed bs = true ->
      contains Start trail = false ->
      parse_questions (concat (map render bs) ++ trail)
      = Ok (map record_of bs))
  /\ parse_questions four_options_text
     = Ok [ {| question := lit "Q1";
               options := [lit "A"; lit "B"; lit "C"; lit "D"];
               correctOptionIndex := 2 |} ].
Proof.
  split; [|vm_compute; reflexivity].
  intros bs trail Hbs Htrail.
  assert (Hs : forallb well_shaped bs = true /\ filter four_options bs = bs).
  { clear Htrail. induction bs as [|b bs IH]; [now split|].
    simpl in Hbs. apply andb_true_iff in Hbs as [Hb Hbs].
    unfold well_formed in Hb. apply andb_true_iff in Hb as [Hb H4].
    destruct (IH Hbs) as [IH1 IH2].
    simpl. rewrite Hb, H4, IH1, IH2. now split. }
  destruct Hs as [Hs Hf].
  rewrite (parse_questions_blocks bs trail Hs Htrail). now rewrite Hf.
Qed.

Lemma parse_questions_well_formed_witness :
  forallb well_formed [four_options_block] = true /\
  contains Start [] = false /\
  render four_options_block = four_options_text /\
  parse_questions (concat (map render [four_options_block]) ++ [])
  = Ok (map record_of [four_options_block]).
Proof.
  split; [reflexivity|]. split; [reflexivity|]. split; [reflexivity|].
  apply (proj1 parse_questions_well_formed [four_options_block] []);
    reflexivity.
Defined.

(** C5.  Every record of [parse_questions] has exactly four options, none
    of them empty.  The records are those of the matches, match by match: a
    match whose options text has four lines that are not blank gives one
    record, any other match gives none, and no error is raised.  A block
    with three option lines gives no record. *)
Theorem parse_questions_four_options (text : str) :
  (exists per_match : list (list MultipleChoice),
      parse_questions text = Ok (concat per_match) /\
      Forall2
        (fun match_ records =>
           exists g1 g2 g3,
             match_ = [g1; g2; g3] /\
             records =
               if List.length (option_lines (strip g2)) =? 4
               then [ {| question := strip g1;
                         options := option_lines (strip g2);
                         correctOptionIndex :=
                           digit_value (hd 0%N g3) |} ]
               else [])
        (findall questions_pattern text) per_match /\
      Forall (fun r => List.length (options r) = 4 /\
                       Forall (fun o => o <> []) (options r))
        (concat per_match))
  /\ findall questions_pattern three_options_text
     = [[lit "Q1"; lit "A" ++ newline ++ lit "B" ++ newline ++ lit "C";
         lit "2"]]
  /\ parse_questions three_options_text = Ok [].
Proof.
  split; [|split; vm_compute; reflexivity].
  destruct (questions_per_match text) as (per_match & Hp & H).
  exists per_match; split; [assumption|]; split.
  - eapply Forall2_impl; [|exact H].
    intros m r (g1 & g2 & d & -> & _ & ->). now exists g1, g2, [d].
  - clear Hp. induction H as [|m r ms rs Hm _ IH]; [constructor|].
    simpl. apply Forall_app; split; [|assumption].
    destruct Hm as (g1 & g2 & d & _ & _ & ->).
    destruct (List.length (option_lines (strip g2)) =? 4) eqn:E;
      constructor; [|constructor].
    simpl. split; [now apply Nat.eqb_eq | apply option_lines_nonempty].
Qed.

(** C6.  The digit is taken as it is: on the well-formed block
    ["Start: Q1 End: OptionsStart: A\nB\nC\nD\n7 OptionsEnd:"], whose digit
    is not one of 0 to 3, a record is returned, and its index is 7. *)
Theorem parse_questions_digit_unchecked :
  parse_questions digit_seven_text
  = Ok [ {| question := lit "Q1";
            options := [lit "A"; lit "B"; lit "C"; lit "D"];
            correctOptionIndex := 7 |} ]
  /\ ~ (0 <= 7 <= 3)%Z.
Proof. split; [vm_compute; reflexivity | lia]. Qed.

Lemma concat_at_most_one {A} (ls : list (list A)) :
  Forall (fun l => List.length l <= 1) ls ->
  List.length (concat ls) <= List.length ls.
Proof.
  induction 1 as [|l ls Hl _ IH]; simpl; [lia|].
  rewrite length_app; lia.
Qed.

Lemma findall_questions_count (text : str) :
  List.length (findall questions_pattern text) <= occurrences Start text.
Proof. exact (@findall_count 83%N (lit "tart:") _ text). Qed.

Lemma findall_true_false_count (text : str) :
  List.length (findall true_false_pattern text) <= occurrences Start text.
Proof. exact (@findall_count 83%N (lit "tart:") _ text). Qed.

Lemma parse_questions_count (text : str) :
  exists records,
    parse_questions text = Ok records /\
    List.length records <= occurrences Start text.
Proof.
  destruct (questions_per_match text) as (per_match & Hp & H).
  exists (concat per_match); split; [assumption|].
  etransitivity; [|apply findall_questions_count].
  transitivity (List.length per_match);
    [|apply Nat.eq_le_incl; symmetry; exact (Forall2_length H)].
  apply concat_at_most_one.
  clear Hp. induction H as [|m r ms rs Hm _ IH]; constructor; auto.
  destruct Hm as (g1 & g2 & d & _ & _ & ->).
  destruct (List.length (option_lines (strip g2)) =? 4); simpl; lia.
Qed.

Lemma parse_true_false_binary_count (text : str) :
  exists records,
    parse_true_false_binary text = Ok records /\
    List.length records <= occurrences Start text.
Proof.
  destruct (true_false_per_match text) as (records & Hp & H).
  exists records; split; [assumption|].
  etransitivity; [|apply findall_true_false_count].
  apply Nat.eq_le_incl; symmetry; exact (Forall2_length H).
Qed.

Lemma parse_open_questions_length (text : str) :
  exists questions,
    parse_open_questions text = Ok questions /\
    List.length questions = occurrences Start text.
Proof.
  eexists; split; [apply open_per_fragment|].
  rewrite length_map. pose proof (split_Start_length text) as H.
  destruct (split_loop (List.length text) Start text); simpl in *; lia.
Qed.

(** C8.  The three parsers return on every text: none raises, and none
    returns more records than the text has places where [Start:] begins.
    On a text that holds neither [Start:] nor [End:] each returns the empty
    list. *)
Theorem parsers_total (text : str) :
  (exists records,
      parse_questions text = Ok records /\
      List.length records <= occurrences Start text)
  /\ (exists records,
         parse_true_false_binary text = Ok records /\
         List.length records <= occurrences Start text)
  /\ (exists questions,
         parse_open_questions text = Ok questions /\
         List.length questions <= occurrences Start text)
  /\ (contains Start text = false -> contains End_ text = false ->
      parse_questions text = Ok []
      /\ parse_true_false_binary text = Ok []
      /\ parse_open_questions text = Ok []).
Proof.
  pose proof (parse_questions_count text) as (r1 & H1 & L1).
  pose proof (parse_true_false_binary_count text) as (r2 & H2 & L2).
  pose proof (parse_open_questions_length text) as (r3 & H3 & L3).
  repeat split; eauto.
  - exists r3; split; [assumption | lia].
  - apply occurrences_contains in H. rewrite H in L1.
    destruct r1; [assumption | simpl in L1; lia].
  - apply occurrences_contains in H. rewrite H in L2.
    destruct r2; [assumption | simpl in L2; lia].
  - apply occurrences_contains in H. rewrite H in L3.
    destruct r3; [assumption | simpl in L3; lia].
Qed.

Lemma parsers_total_witness :
  contains Start (lit "Nie wiem.") = false /\
  contains End_ (lit "Nie wiem.") = false /\
  parse_questions (lit "Nie wiem.") = Ok [] /\
  parse_true_false_binary (lit "Nie wiem.") = Ok [] /\
  parse_open_questions (lit "Nie wiem.") = Ok [].
Proof.
  split; [reflexivity|]. split; [reflexivity|].
  apply (proj2 (proj2 (proj2 (parsers_total (lit "Nie wiem."))))); reflexivity.
Defined.

(** C9.  [parse_open_questions] splits the text at [Start:] -- the parts,
    joined by [Start:], are the text, and no part holds [Start:] -- and
    returns one question per part behind the first one, in order: where
    the part holds [End:], the question is what stands before the first
    [End:] of the part, stripped.  On ["Start: Q1 End: Start: Q2 End:"]
    the result is [Q1], [Q2]. *)
Theorem parse_open_questions_fragments (text : str) :
  (exists parts questions,
      split Start text = Ok parts /\
      join Start parts = text /\
      Forall (fun part => contains Start part = false) parts /\
      parse_open_questions text = Ok questions /\
      Forall2
        (fun part q =>
           match find End_ part with
           | Some i =>
               part = firstn i part ++ End_ ++ skipn (i + 4) part /\
               contains End_ (firstn i part) = false /\
               q = strip (firstn i part)
           | None => True
           end)
        (tl parts) questions)
  /\ parse_open_questions (lit "Start: Q1 End: Start: Q2 End:")
     = Ok [lit "Q1"; lit "Q2"].
Proof.
  split; [|vm_compute; reflexivity].
  exists (split_loop (List.length text) Start text). eexists.
  split; [apply split_Start|].
  split; [apply split_join, Start_not_nil|].
  split; [apply split_parts_clean, Start_not_nil|].
  split; [apply open_per_fragment|].
  generalize (tl (split_loop (List.length text) Start text)); intros parts.
  induction parts as [|part parts IH]; simpl; constructor; [|exact IH].
  destruct (find End_ part) as [i|] eqn:E; [|exact I].
  repeat split.
  - exact (@find_Some_split End_ part i E).
  - exact (@find_Some_before End_ part i End_not_nil E).
Qed.

Lemma piece_clean (part : str) :
  contains Start part = false ->
  let piece := match find End_ part with
               | Some i => firstn i part
               | None => part
               end in
  contains Start (strip piece) = false /\ contains End_ (strip piece) = false.
Proof.
  intros Hs piece.
  assert (H : contains Start piece = false /\ contains End_ piece = false).
  { subst piece. destruct (find End_ part) as [i|] eqn:E.
    - split; [|exact (@find_Some_before End_ part i End_not_nil E)].
      rewrite <- (firstn_skipn i part) in Hs.
      now apply contains_false_prefix in Hs.
    - split; [assumption|]. unfold contains; now rewrite E. }
  destruct H as [H1 H2]. destruct (strip_infix piece) as (a & b & E).
  rewrite E in H1, H2.
  split; eapply contains_false_infix; eassumption.
Qed.

(** C10.  [parse_open_questions] returns as many questions as the text has
    places where [Start:] begins: the body of its loop adds a question for
    every part, so its [except IndexError] branch is never taken.  No
    question returned holds [Start:] or [End:]. *)
Theorem parse_open_questions_count (text : str) :
  (exists questions,
      parse_open_questions text = Ok questions /\
      List.length questions = occurrences Start text /\
      Forall (fun q => contains Start q = false /\ contains End_ q = false)
        questions)
  /\ (forall part questions,
         exists q, open_body part questions = Ok (questions ++ [q])).
Proof.
  split.
  - destruct (parse_open_questions_length text) as (qs & Hq & Hl).
    exists qs; split; [assumption|]; split; [assumption|].
    rewrite open_per_fragment in Hq. injection Hq as <-.
    pose proof (@split_parts_clean Start text Start_not_nil) as Hc.
    assert (Ht : Forall (fun p => contains Start p = false)
                   (tl (split_loop (List.length text) Start text)))
      by (destruct (split_loop (List.length text) Start text);
          [constructor | now inversion Hc]).
    clear Hc Hl. induction Ht as [|part parts Hp _ IH]; simpl; constructor.
    + now apply piece_clean.
    + exact IH.
  - intros part questions. eexists. apply open_body_value.
Qed.

(* ================================================================== *)
(** ** More about the Python values                                     *)
(* ================================================================== *)

Module MoreFacts.

(** *** What [strip] returns *)

Lemma rstrip_ends (s : str) :
  rstrip s = [] \/ ends_nonspace (rstrip s) = true.
Proof.
  unfold rstrip, ends_nonspace. rewrite rev_involutive.
  destruct (lstrip_starts_or_nil (rev s)) as [-> | H]; [now left | now right].
Qed.

Lemma rstrip_starts (s : str) :
  starts_nonspace s = true -> starts_nonspace (rstrip s) = true.
Proof.
  destruct s as [|c s]; [discriminate|]. simpl; intros Hc.
  destruct (rstrip_prefix (c :: s)) as (w & E & Hw).
  destruct (rstrip (c :: s)) as [|c' r].
  - simpl in E; subst w. unfold whitespace in Hw; simpl in Hw.
    apply negb_true_iff in Hc. rewrite Hc in Hw. discriminate.
  - simpl in E. injection E as <- _. exact Hc.
Qed.

(** A stripped text is empty or tidy. *)
Lemma strip_shape (s : str) : strip s = [] \/ tidy (strip s) = true.
Proof.
  unfold strip. destruct (lstrip_starts_or_nil s) as [E | Hs].
  - left. rewrite E. reflexivity.
  - destruct (rstrip_ends (lstrip s)) as [E | He]; [now left|].
    right. unfold tidy. rewrite He, (rstrip_starts _ Hs). reflexivity.
Qed.

Lemma strip_strip (s : str) : strip (strip s) = strip s.
Proof.
  destruct (strip_shape s) as [-> | H]; [reflexivity | now apply tidy_strip].
Qed.

(** White space around a tidy text is what [strip] removes. *)
Lemma strip_gaps (g1 q g2 : str) :
  whitespace g1 = true -> whitespace g2 = true -> tidy q = true ->
  strip (g1 ++ q ++ g2) = q.
Proof.
  intros H1 H2 Hq. unfold tidy in Hq. apply andb_true_iff in Hq as [Hs He].
  unfold strip. rewrite lstrip_whitespace by assumption.
  rewrite lstrip_starts by now apply starts_nonspace_app.
  unfold rstrip. rewrite rev_app_distr, lstrip_whitespace.
  - rewrite lstrip_starts by exact He. apply rev_involutive.
  - unfold whitespace in *. rewrite forallb_forall in *.
    intros c Hc. apply H2. now apply in_rev.
Qed.

(** *** The lines of [splitlines] *)

Lemma single_line_app (a b : str) :
  single_line (a ++ b) = single_line a && single_line b.
Proof. unfold single_line. apply forallb_app. Qed.

Lemma splitlines_from_single (n : nat) (s cur : str) :
  List.length s <= n -> single_line cur = true ->
  Forall (fun l => single_line l = true) (splitlines_from cur s).
Proof.
  revert s cur; induction n as [|n IH]; intros s cur Hn Hcur.
  - destruct s; [|simpl in Hn; lia]. simpl.
    destruct cur; repeat constructor. exact Hcur.
  - destruct s as [|c s]; simpl.
    + destruct cur; repeat constructor. exact Hcur.
    + simpl in Hn. destruct (islinebreak c) eqn:Hc.
      * constructor; [exact Hcur|].
        destruct (char_eqb c 13%N); [|apply IH; [lia | reflexivity]].
        destruct s as [|c' s']; [apply IH; [simpl; lia | reflexivity]|].
        destruct (char_eqb c' 10%N); apply IH; simpl in *; try lia;
          reflexivity.
      * apply IH; [lia|]. rewrite single_line_app, Hcur. simpl.
        now rewrite Hc.
Qed.

Lemma splitlines_single (s : str) :
  Forall (fun l => single_line l = true) (splitlines s).
Proof. now apply (@splitlines_from_single (List.length s)). Qed.

Lemma strip_single_line (s : str) :
  single_line s = true -> single_line (strip s) = true.
Proof.
  intros H. destruct (strip_infix s) as (a & b & E). rewrite E in H.
  rewrite !single_line_app in H.
  apply andb_true_iff in H as [_ H]. now apply andb_true_iff in H as [H _].
Qed.

(** Every option line is tidy and is one line. *)
Lemma option_lines_tidy (t : str) :
  Forall (fun o => tidy o = true /\ single_line o = true) (option_lines t).
Proof.
  unfold option_lines. apply Forall_forall. intros o Ho.
  apply in_map_iff in Ho as (x & <- & Hx).
  apply filter_In in Hx as [Hin Hx]. apply negb_true_iff in Hx. split.
  - destruct (strip_shape x) as [E | H]; [|exact H].
    rewrite E in Hx. discriminate.
  - apply strip_single_line.
    pose proof (splitlines_single t) as H. rewrite Forall_forall in H.
    now apply H.
Qed.

(** *** Markers, white space and [find] *)

Lemma contains_space_left (m g x : str) :
  starts_nonspace m = true -> whitespace g = true ->
  contains m x = false -> contains m (g ++ x) = false.
Proof.
  intros Hm Hg Hx. induction g as [|c g IH]; [exact Hx|].
  unfold whitespace in Hg; simpl in Hg. apply andb_true_iff in Hg as [Hc Hg].
  specialize (IH Hg). unfold contains in *. simpl.
  destruct m as [|m0 m]; [discriminate|]. rewrite startswith_cons.
  destruct (char_eqb m0 c) eqn:E.
  - apply char_eqb_eq in E; subst. simpl in Hm. rewrite Hc in Hm. discriminate.
  - simpl. destruct (find (m0 :: m) (g ++ x)); [discriminate | reflexivity].
Qed.

Lemma contains_space_right (m x g : str) :
  forallb (fun c => negb (isspace c)) m = true -> m <> [] ->
  whitespace g = true ->
  contains m x = false -> contains m (x ++ g) = false.
Proof.
  intros Hm Hne Hg. induction x as [|c x IH]; intros Hx.
  - simpl. rewrite <- (app_nil_r g).
    apply contains_space_left; [|assumption | now apply contains_nil].
    destruct m as [|m0 m]; [congruence|]. simpl in *.
    now apply andb_true_iff in Hm as [Hm _].
  - assert (Hx' : contains m x = false)
      by now apply (contains_false_suffix m [c] x).
    specialize (IH Hx'). unfold contains in *.
    change ((c :: x) ++ g) with (c :: x ++ g). cbn [find].
    destruct (startswith m (c :: x ++ g)) eqn:E.
    + change (c :: x ++ g) with ((c :: x) ++ g) in E.
      apply startswith_app_inv in E as [E | (y & g' & -> & [E | E])].
      * apply contains_false_startswith in Hx. unfold contains in Hx.
        congruence.
      * discriminate.
      * apply in_tl in E. rewrite forallb_forall in Hm. apply Hm in E.
        unfold whitespace in Hg; simpl in Hg.
        apply andb_true_iff in Hg as [Hy _]. rewrite Hy in E. discriminate.
    + destruct (find m (x ++ g)); [discriminate | reflexivity].
Qed.

Lemma startswith_app_short (m x y : str) :
  startswith m (x ++ y) = true -> List.length m <= List.length x ->
  startswith m x = true.
Proof.
  revert x; induction m as [|a m IH]; intros x H Hl; [reflexivity|].
  destruct x as [|b x]; [simpl in Hl; lia|].
  simpl in H. rewrite startswith_cons in *.
  apply andb_true_iff in H as [-> H]. simpl. apply IH; [assumption|].
  simpl in Hl; lia.
Qed.

(** The first place of [m] in [x] is its first place in [x ++ y]. *)
Lemma find_app_Some (m x y : str) (i : nat) :
  find m x = Some i -> find m (x ++ y) = Some i.
Proof.
  revert i; induction x as [|c x IH]; intros i H.
  - simpl in H. destruct (startswith m []) eqn:E; [|discriminate].
    injection H as <-. apply (startswith_prefix _ _ y) in E. simpl in E.
    destruct y; simpl; now rewrite E.
  - pose proof (find_Some_length _ _ H) as HL.
    cbn [find] in H. change ((c :: x) ++ y) with (c :: x ++ y). cbn [find].
    destruct (startswith m (c :: x)) eqn:E.
    + injection H as <-.
      apply (startswith_prefix _ _ y) in E. simpl in E. now rewrite E.
    + destruct (find m x) as [j|] eqn:F; [|discriminate].
      injection H as <-. rewrite (IH j eq_refl).
      destruct (startswith m (c :: x ++ y)) eqn:E'; [|reflexivity].
      change (c :: x ++ y) with ((c :: x) ++ y) in E'.
      apply startswith_app_short in E'; [congruence|]. lia.
Qed.

Lemma find_here (m s : str) : startswith m s = true -> find m s = Some 0.
Proof. intros H; destruct s; simpl; now rewrite H. Qed.

(** Behind a text without [m], a marker [m] whose first character does not
    come back in it is found where it stands. *)
Lemma find_marker (m x y : str) :
  m <> [] -> ~ List.In (hd 0%N m) (tl m) ->
  contains m x = false ->
  find m (x ++ m ++ y) = Some (List.length x).
Proof.
  intros Hne Hm. induction x as [|c x IH]; intros Hx.
  - apply find_here. exact (startswith_app m y).
  - assert (Hx' : contains m x = false)
      by now apply (contains_false_suffix m [c] x).
    change ((c :: x) ++ m ++ y) with (c :: x ++ m ++ y). cbn [find].
    rewrite (IH Hx'). simpl.
    destruct (startswith m (c :: x ++ m ++ y)) eqn:E; [|reflexivity].
    change (c :: x ++ m ++ y) with ((c :: x) ++ m ++ y) in E.
    apply startswith_app_inv in E as [E | (a & y' & Ey & [E | E])].
    + apply contains_false_startswith in Hx. congruence.
    + discriminate.
    + destruct m as [|m0 m]; [congruence|]. simpl in Ey.
      injection Ey as <- _. contradiction.
Qed.

(** *** [split] of a text put together at a separator *)

Lemma firstn_whole {A} (x y : list A) : firstn (List.length x) (x ++ y) = x.
Proof. induction x as [|c x IH]; simpl; [now destruct y | now rewrite IH]. Qed.

Lemma skipn_behind {A} (x m y : list A) :
  skipn (List.length x + List.length m) (x ++ m ++ y) = y.
Proof.
  induction x as [|c x IH]; simpl; [|exact IH].
  induction m as [|d m IHm]; simpl; [reflexivity | exact IHm].
Qed.

Lemma firstn_within {A} (i : nat) (x y : list A) :
  i <= List.length x -> firstn i (x ++ y) = firstn i x.
Proof.
  revert i; induction x as [|c x IH]; intros [|i] H; simpl in *;
    try reflexivity; try lia.
  f_equal. apply IH. lia.
Qed.

Lemma skipn_within {A} (i : nat) (x y : list A) :
  i <= List.length x -> skipn i (x ++ y) = skipn i x ++ y.
Proof.
  revert i; induction x as [|c x IH]; intros [|i] H; simpl in *;
    try reflexivity; try lia.
  apply IH. lia.
Qed.

Lemma split_app (sep a b : str) :
  sep <> [] -> ~ List.In (hd 0%N sep) (tl sep) ->
  split_loop (List.length (a ++ sep ++ b)) sep (a ++ sep ++ b)
  = split_loop (List.length a) sep a ++ split_loop (List.length b) sep b.
Proof.
  intros Hne Hsep.
  apply (@split_ind sep
    (fun a parts =>
       split_loop (List.length (a ++ sep ++ b)) sep (a ++ sep ++ b)
       = parts ++ split_loop (List.length b) sep b) Hne).
  - intros x E. rewrite split_loop_unfold by assumption.
    rewrite find_marker; auto; [|unfold contains; now rewrite E].
    cbv zeta. rewrite firstn_whole, skipn_behind. reflexivity.
  - intros x i parts E IH. rewrite split_loop_unfold by assumption.
    rewrite (@find_app_Some sep x (sep ++ b) i E). cbv zeta.
    pose proof (@find_Some_length sep x i E) as HL.
    rewrite firstn_within, skipn_within by lia.
    simpl app. f_equal. exact IH.
Qed.

Lemma Start_unbordered : ~ List.In (hd 0%N Start) (tl Start).
Proof. vm_compute. intuition discriminate. Qed.

Lemma End_unbordered : ~ List.In (hd 0%N End_) (tl End_).
Proof. vm_compute. intuition discriminate. Qed.

Lemma split_loop_not_nil (sep s : str) :
  sep <> [] -> split_loop (List.length s) sep s <> [].
Proof.
  intros Hne. rewrite split_loop_unfold by assumption.
  destruct (find sep s); discriminate.
Qed.

(** *** The open-question parser, piece by piece *)

Lemma parse_open_app (a b : str) :
  parse_open_questions (a ++ Start ++ b)
  = Ok (map open_piece (tl (split_loop (List.length a) Start a))
        ++ map open_piece (split_loop (List.length b) Start b)).
Proof.
  rewrite open_per_fragment. fold open_piece.
  rewrite (@split_app Start a b Start_not_nil Start_unbordered).
  pose proof (@split_loop_not_nil Start a Start_not_nil) as H.
  destruct (split_loop (List.length a) Start a) as [|p ps]; [congruence|].
  simpl. now rewrite map_app.
Qed.

Lemma tl_split_behind_Start (x : str) :
  tl (split_loop (List.length (Start ++ x)) Start (Start ++ x))
  = split_loop (List.length x) Start x.
Proof.
  pose proof (@split_app Start [] x Start_not_nil Start_unbordered) as H.
  change ([] ++ Start ++ x) with (Start ++ x) in H. rewrite H.
  reflexivity.
Qed.

Lemma parse_open_behind_Start (b : str) :
  parse_open_questions (Start ++ b)
  = Ok (map open_piece (split_loop (List.length b) Start b)).
Proof. exact (parse_open_app [] b). Qed.

Lemma open_piece_fragment (b : open_block) :
  well_shaped_open b = true -> open_piece (open_fragment b) = o_question b.
Proof.
  unfold well_shaped_open. intros H.
  repeat match goal with
    | H : _ && _ = true |- _ => apply andb_true_iff in H as [? ?]
    | H : negb _ = true |- _ => apply negb_true_iff in H
    end.
  unfold open_piece, open_fragment.
  replace (o_gap1 b ++ o_question b ++ o_gap2 b ++ End_ ++ o_after b)
    with ((o_gap1 b ++ o_question b ++ o_gap2 b) ++ End_ ++ o_after b)
    by now rewrite <- !app_assoc.
  rewrite find_marker.
  - rewrite firstn_whole. now apply strip_gaps.
  - exact End_not_nil.
  - exact End_unbordered.
  - apply contains_space_left; [reflexivity | assumption|].
    apply contains_space_right;
      [reflexivity | exact End_not_nil | assumption | assumption].
Qed.

Lemma split_without (sep s : str) :
  sep <> [] -> contains sep s = false ->
  split_loop (List.length s) sep s = [s].
Proof.
  intros Hne H. rewrite split_loop_unfold by assumption.
  unfold contains in H. destruct (find sep s); [discriminate | reflexivity].
Qed.

Lemma well_shaped_open_clean (b : open_block) :
  well_shaped_open b = true -> contains Start (open_fragment b) = false.
Proof.
  unfold well_shaped_open. intros H.
  apply andb_true_iff in H as [_ H]. now apply negb_true_iff.
Qed.

Lemma parse_open_one (b : open_block) :
  well_shaped_open b = true ->
  map open_piece
    (split_loop (List.length (open_fragment b)) Start (open_fragment b))
  = [o_question b].
Proof.
  intros H. rewrite split_without.
  - cbn [map]. now rewrite open_piece_fragment.
  - exact Start_not_nil.
  - now apply well_shaped_open_clean.
Qed.

Lemma parse_open_blocks (b : open_block) (bs : list open_block) :
  forallb well_shaped_open (b :: bs) = true ->
  parse_open_questions (concat (map render_open (b :: bs)))
  = Ok (map o_question (b :: bs)).
Proof.
  revert b; induction bs as [|b' bs IH]; intros b H.
  - cbn [forallb] in H. rewrite andb_true_r in H.
    change (concat (map render_open [b])) with (render_open b ++ []).
    rewrite app_nil_r. unfold render_open.
    rewrite parse_open_behind_Start, parse_open_one by assumption.
    reflexivity.
  - cbn [forallb] in H. apply andb_true_iff in H as [Hb H].
    specialize (IH b' H).
    change (concat (map render_open (b :: b' :: bs)))
      with (render_open b ++ concat (map render_open (b' :: bs))).
    change (concat (map render_open (b' :: bs)))
      with ((Start ++ open_fragment b') ++ concat (map render_open bs)) in *.
    rewrite <- app_assoc in *.
    rewrite parse_open_behind_Start in IH. injection IH as IH.
    rewrite parse_open_app, IH. unfold render_open.
    rewrite tl_split_behind_Start, parse_open_one by assumption.
    reflexivity.
Qed.

(** *** The pattern of [parse_true_false_binary] on a well-shaped block *)

(** Inside a question, whatever follows its [End:], the rest of a pattern
    that goes on with white space and [End:] does not match. *)
Lemma question_kept_whole (q g2 z q1 q2 : str) (groups : list str)
  (pat : pattern) :
  whitespace g2 = true -> tidy q = true -> contains End_ q = false ->
  q = q1 ++ q2 -> q2 <> [] ->
  match_here (Plain (MaxRepeat isspace) :: Plain (Literal End_) :: pat)
    groups (q2 ++ g2 ++ End_ ++ z) = None.
Proof.
  intros Hg2 Hq HqEnd E Hq2. apply space_literal_fails; [reflexivity|].
  apply (@marker_not_behind End_ q1 q2).
  - now rewrite <- E.
  - apply andb_true_iff in Hq as [_ He].
    rewrite E, ends_nonspace_app in He; assumption.
  - intros c y' Ey Hin.
    apply head_behind_space in Ey as [Hs | [s' Ey]]; [| |assumption].
    + apply in_tl in Hin.
      now apply (proj2 (proj2 (space_not_in_markers c Hs))).
    + injection Ey as <- _. vm_compute in Hin. intuition discriminate.
Qed.

Lemma match_here_answer (a : bool) (pat : pattern) (groups : list str)
  (s : str) (r : list str * str) :
  match_here pat (groups ++ [answer_text a]) s = Some r ->
  match_here (Group (Branch [lit "1"; lit "0"]) :: pat) groups
    (answer_text a ++ s) = Some r.
Proof.
  intros H. cbn [match_here match_atom branch].
  destruct a; unfold answer_text in *.
  - rewrite literal_app. now rewrite H.
  - replace (literal (fun taken s' => match_here pat (groups ++ [taken]) s')
               (lit "1") (lit "0" ++ s)) with (@None (list str * str))
      by reflexivity.
    rewrite literal_app. now rewrite H.
Qed.

Lemma match_here_tf_block (g1 q g2 g3 g4 : str) (a : bool) (g5 rest : str) :
  whitespace g1 = true -> whitespace g2 = true -> whitespace g3 = true ->
  whitespace g4 = true -> whitespace g5 = true ->
  tidy q = true -> contains End_ q = false ->
  match_here true_false_pattern []
    (Start ++ g1 ++ q ++ g2 ++ End_ ++ g3 ++ answerStart ++ g4
     ++ answer_text a ++ g5 ++ answerEnd ++ rest)
  = Some ([q; answer_text a], rest).
Proof.
  intros H1 H2 H3 H4 H5 Hq HqEnd.
  pose proof Hq as Hq'. apply andb_true_iff in Hq' as [Hqs _].
  unfold true_false_pattern. rewrite match_here_literal.
  apply match_here_space; [assumption | now apply starts_nonspace_app |].
  apply match_here_lazy;
    [intros q1 q2; now apply question_kept_whole|].
  apply match_here_space; [assumption | reflexivity |].
  rewrite match_here_literal.
  apply match_here_space; [assumption | reflexivity |].
  rewrite match_here_literal.
  apply match_here_space; [assumption | now destruct a |].
  apply match_here_answer.
  apply match_here_space; [assumption | reflexivity |].
  rewrite match_here_literal. reflexivity.
Qed.

Lemma findall_true_false_unfold (s : str) :
  findall true_false_pattern s =
  match search true_false_pattern s with
  | None => []
  | Some (groups, rest) => groups :: findall true_false_pattern rest
  end.
Proof. exact (@findall_unfold 83%N (lit "tart:") _ s). Qed.

Lemma search_tf_block (b : tf_block) (rest : str) :
  well_shaped_tf b = true ->
  search true_false_pattern (render_tf b ++ rest)
  = Some ([t_question b; answer_text (t_answer b)], rest).
Proof.
  unfold well_shaped_tf. intros H.
  repeat match goal with
    | H : _ && _ = true |- _ => apply andb_true_iff in H as [? ?]
    | H : negb _ = true |- _ => apply negb_true_iff in H
    end.
  unfold render_tf. rewrite <- !app_assoc.
  unfold true_false_pattern at 1. rewrite search_skip_lead by assumption.
  apply search_hit. fold true_false_pattern.
  now apply match_here_tf_block.
Qed.

Lemma findall_tf_blocks (bs : list tf_block) (trail : str) :
  forallb well_shaped_tf bs = true ->
  contains Start trail = false ->
  findall true_false_pattern (concat (map render_tf bs) ++ trail)
  = map (fun b => [t_question b; answer_text (t_answer b)]) bs.
Proof.
  intros Hbs Htrail; induction bs as [|b bs IH].
  - simpl. rewrite findall_true_false_unfold.
    unfold true_false_pattern. now rewrite search_begin.
  - simpl in Hbs; apply andb_true_iff in Hbs as [Hb Hbs].
    simpl. rewrite <- app_assoc, findall_true_false_unfold.
    rewrite (search_tf_block _ _ Hb). f_equal. now apply IH.
Qed.

Lemma true_false_body_block (b : tf_block) (acc : list TrueFalse) :
  well_shaped_tf b = true ->
  true_false_body [t_question b; answer_text (t_answer b)] acc
  = Ok (acc ++ [tf_record_of b]).
Proof.
  unfold well_shaped_tf. intros H.
  repeat match goal with
    | H : _ && _ = true |- _ => apply andb_true_iff in H as [? ?]
    end.
  unfold true_false_body. cbn [getitem nth_error bind].
  rewrite tidy_strip by assumption. unfold tf_record_of.
  destruct (t_answer b); reflexivity.
Qed.

(** *** The log of the requester *)

Section Log.
Context {RT : Runtime}.

Lemma tried_app (a b : list log_record) : tried (a ++ b) = tried a ++ tried b.
Proof.
  induction a as [|x a IH]; [reflexivity|].
  destruct x; simpl; now rewrite IH.
Qed.

Lemma loop_log_failed (m : str) (prompt : str) (o : outcome)
  (new : list attempt) (newlog : list log_record) (x : log_record)
  (r : ModelAttemptResult) :
  tried [x] = [] -> x <> WarningNoModel ->
  loop_log new newlog r ->
  loop_log ({| called_model := m; called_prompt := prompt; ended := o |} :: new)
    (InfoTrying m :: x :: newlog) r.
Proof.
  intros Hx Hw (Ht & Hl & Hin & Htime). repeat split.
  - change (InfoTrying m :: x :: newlog)
      with ([InfoTrying m] ++ [x] ++ newlog).
    rewrite !tried_app, Hx, Ht. reflexivity.
  - simpl List.length. rewrite Hl. lia.
  - intros [H | [H | H]]; [discriminate | congruence | now apply Hin].
  - intros H. right; right. now apply Hin.
  - apply Htime.
  - apply Htime.
Qed.

Lemma request_loop_log (models : list str) (prompt : str) (st : state) :
  exists new newlog,
    attempts (snd (request_loop models prompt st)) = attempts st ++ new /\
    logged (snd (request_loop models prompt st)) = logged st ++ newlog /\
    loop_log new newlog (fst (request_loop models prompt st)).
Proof.
  revert st; induction models as [|m models IH]; intros st.
  - exists [], [WarningNoModel]. simpl. rewrite app_nil_r.
    repeat split; auto. now left.
  - cbn [request_loop]. unfold seq, now, chat_completions_create, log, ret.
    cbn [world attempts logged].
    destruct (time_time (world st)) as [t0 w0].
    cbn [world attempts logged].
    destruct (create m prompt w0) as [o w1].
    set (a := {| called_model := m; called_prompt := prompt; ended := o |}).
    assert (Hstep : forall st' x,
               attempts st' = attempts st ++ [a] ->
               logged st' = (logged st ++ [InfoTrying m]) ++ [x] ->
               tried [x] = [] -> x <> WarningNoModel ->
               exists new newlog,
                 attempts (snd (request_loop models prompt st'))
                 = attempts st ++ new /\
                 logged (snd (request_loop models prompt st'))
                 = logged st ++ newlog /\
                 loop_log new newlog (fst (request_loop models prompt st'))).
    { intros st' x Ha Hl Hx Hw.
      destruct (IH st') as (new & newlog & Hnew & Hlog & Hout).
      exists (a :: new), (InfoTrying m :: x :: newlog). repeat split.
      - rewrite Hnew, Ha, <- app_assoc. reflexivity.
      - rewrite Hlog, Hl, <- !app_assoc. reflexivity.
      - apply (loop_log_failed m prompt o Hx Hw Hout).
      - apply (loop_log_failed m prompt o Hx Hw Hout).
      - apply (loop_log_failed m prompt o Hx Hw Hout).
      - apply (loop_log_failed m prompt o Hx Hw Hout).
      - apply (loop_log_failed m prompt o Hx Hw Hout).
      - apply (loop_log_failed m prompt o Hx Hw Hout). }
    destruct o as [response| |]; cbn [world attempts logged].
    + destruct (time_time w1) as [t1 w2].
      destruct (stripped_content response) as [c|] eqn:Ec.
      * exists [a], [InfoTrying m; InfoReturned m (minus t1 t0)].
        cbn [fst snd attempts logged]. rewrite <- app_assoc.
        repeat split; try reflexivity; try discriminate.
        intros [H | [H | H]]; try discriminate; contradiction.
      * cbn [world attempts logged]. destruct (time_time w2) as [t2 w3].
        apply (Hstep _ (ErrorFailed m (minus t2 t0)));
          [reflexivity | reflexivity | reflexivity | discriminate].
    + destruct (time_time w1) as [t1 w2].
      apply (Hstep _ (WarningTimedOut m (minus t1 t0)));
        [reflexivity | reflexivity | reflexivity | discriminate].
    + destruct (time_time w1) as [t1 w2].
      apply (Hstep _ (ErrorFailed m (minus t1 t0)));
        [reflexivity | reflexivity | reflexivity | discriminate].
Qed.

(** The last call of a run that returned a content decides the record. *)
Lemma request_ai_answered (prompt : str) (w : World)
  (before : list attempt) (a : attempt) (raw : str)
  (others : list (option str)) :
  attempts (snd (request_ai prompt (initial w))) = before ++ [a] ->
  ended a = Returned {| choices := Some raw :: others |} ->
  model (fst (request_ai prompt (initial w))) = Some (called_model a) /\
  content (fst (request_ai prompt (initial w))) = strip raw.
Proof.
  unfold request_ai. intros Hatt Ha.
  destruct (request_loop_outcome top_models prompt (initial w))
    as (new & Hnew & _ & H).
  change (attempts (initial w) ++ new) with new in Hnew.
  rewrite Hnew in Hatt. subst new.
  destruct H as [(before' & a' & raw' & others' & rest & E & _ & _ & Ha' & Hm
                  & Hc)
                | (_ & Hall & _)].
  - apply app_inj_tail in E as [_ <-]. rewrite Ha in Ha'.
    injection Ha' as <- _. now split.
  - apply Forall_app in Hall as [_ Hall]. inversion Hall as [|? ? Hf _]; subst.
    unfold failed, succeeded in Hf. rewrite Ha in Hf. discriminate.
Qed.

(** A run whose calls all failed returns the record without a model. *)
Lemma request_ai_unanswered (prompt : str) (w : World) :
  Forall failed (attempts (snd (request_ai prompt (initial w)))) ->
  fst (request_ai prompt (initial w))
  = {| model := None; content := no_answer; time := None |}.
Proof.
  unfold request_ai. intros Hall.
  destruct (request_loop_outcome top_models prompt (initial w))
    as (new & Hnew & _ & H).
  change (attempts (initial w) ++ new) with new in Hnew.
  rewrite Hnew in *.
  destruct H as [(before & a & raw & others & rest & -> & _ & _ & Ha & _)
                | (_ & _ & Hr)]; [|exact Hr].
  apply Forall_app in Hall as [_ Hall]. inversion Hall as [|? ? Hf _]; subst.
  unfold failed, succeeded in Hf. rewrite Ha in Hf. discriminate.
Qed.
End Log.

(** *** The prompt of [verify_OPEN] *)

Lemma cut_at_quote (x x' y y' : str) :
  has_quote x = false -> has_quote x' = false ->
  x ++ quote :: y = x' ++ quote :: y' -> x = x' /\ y = y'.
Proof.
  unfold has_quote. revert x'; induction x as [|c x IH]; intros [|c' x'];
    cbn [existsb app]; intros H H' E.
  - injection E as ->. now split.
  - injection E as <- _. rewrite char_eqb_refl in H'. discriminate.
  - injection E as -> _. rewrite char_eqb_refl in H. discriminate.
  - injection E as <- E. apply orb_false_iff in H as [_ H].
    apply orb_false_iff in H' as [_ H'].
    destruct (IH x' H H' E) as [-> ->]. now split.
Qed.

End MoreFacts.

Import MoreFacts.

(* ================================================================== *)
(** ** More about the parsers                                           *)
(* ================================================================== *)

(** X1.  A text made of well-shaped true/false blocks -- [Start:], the
    question, [End:], [answerStart:], [1] or [0], [answerEnd:], with white
    space (possibly none) between them -- and of nothing else that holds
    [Start:] gives one record per block, in the order of the blocks, with
    the question of the block and its answer. *)
Theorem parse_true_false_binary_well_shaped (bs : list tf_block)
  (trail : str) :
  forallb well_shaped_tf bs = true ->
  contains Start trail = false ->
  parse_true_false_binary (concat (map render_tf bs) ++ trail)
  = Ok (map tf_record_of bs).
Proof.
  intros Hbs Htrail. unfold parse_true_false_binary. cbv zeta.
  rewrite findall_tf_blocks by assumption.
  rewrite (@for_each_appends _ _ true_false_body _
             (map (fun b => [tf_record_of b]) bs)).
  - now rewrite concat_singletons.
  - clear Htrail. induction bs as [|b bs IH]; simpl; constructor.
    + simpl in Hbs; apply andb_true_iff in Hbs as [Hb _].
      intros acc. now apply true_false_body_block.
    + simpl in Hbs; apply andb_true_iff in Hbs as [_ Hbs]. now apply IH.
Qed.

Lemma parse_true_false_binary_well_shaped_witness :
  forallb well_shaped_tf [earth_block] = true /\
  contains Start [] = false /\
  render_tf earth_block
  = lit "Start: Is Earth round? End: answerStart: 1 answerEnd:" /\
  parse_true_false_binary (concat (map render_tf [earth_block]) ++ [])
  = Ok (map tf_record_of [earth_block]).
Proof.
  split; [reflexivity|]. split; [reflexivity|]. split; [reflexivity|].
  apply (parse_true_false_binary_well_shaped [earth_block] []); reflexivity.
Defined.

(** X2.  A text that holds no [Start:] before its first block and is made
    of well-shaped open-question blocks -- [Start:], the question, [End:]
    and what follows, with white space (possibly none) around the
    question and no [Start:] behind [Start:] -- gives the questions of the
    blocks, in order. *)
Theorem parse_open_questions_well_shaped (before : str)
  (bs : list open_block) :
  contains Start before = false ->
  forallb well_shaped_open bs = true ->
  parse_open_questions (before ++ concat (map render_open bs))
  = Ok (map o_question bs).
Proof.
  intros Hb Hbs. destruct bs as [|b bs].
  - simpl. rewrite app_nil_r, open_per_fragment.
    now rewrite (@split_without Start before Start_not_nil Hb).
  - pose proof (parse_open_blocks b bs Hbs) as H.
    change (concat (map render_open (b :: bs)))
      with ((Start ++ open_fragment b) ++ concat (map render_open bs)) in *.
    rewrite <- app_assoc in *.
    rewrite parse_open_behind_Start in H. injection H as H.
    rewrite parse_open_app, H.
    now rewrite (@split_without Start before Start_not_nil Hb).
Qed.

Lemma parse_open_questions_well_shaped_witness :
  contains Start [] = false /\
  forallb well_shaped_open [open_q1; open_q2] = true /\
  [] ++ concat (map render_open [open_q1; open_q2])
  = lit "Start: Q1 End: Start: Q2 End:" /\
  parse_open_questions ([] ++ concat (map render_open [open_q1; open_q2]))
  = Ok (map o_question [open_q1; open_q2]).
Proof.
  split; [reflexivity|]. split; [reflexivity|]. split; [reflexivity|].
  apply (parse_open_questions_well_shaped [] [open_q1; open_q2]); reflexivity.
Defined.

(** X3.  [parse_open_questions] works piece by piece: the questions of a
    text followed by [Start:] and a second text are the questions of the
    first text and then those of [Start:] with the second text. *)
Theorem parse_open_questions_app (a b : str) :
  exists qa qb,
    parse_open_questions a = Ok qa /\
    parse_open_questions (Start ++ b) = Ok qb /\
    parse_open_questions (a ++ Start ++ b) = Ok (qa ++ qb).
Proof.
  eexists; eexists. split; [apply open_per_fragment|].
  split; [apply parse_open_behind_Start|].
  rewrite parse_open_app. reflexivity.
Qed.

(** X4.  In a text made of well-shaped multiple-choice blocks with any
    number of option lines, the blocks with four options give their
    records, in order, and the other blocks give nothing and do not
    disturb the blocks around them. *)
Theorem parse_questions_drops_other_blocks (bs : list block) (trail : str) :
  forallb well_shaped bs = true ->
  contains Start trail = false ->
  parse_questions (concat (map render bs) ++ trail)
  = Ok (map record_of (filter four_options bs)).
Proof. apply parse_questions_blocks. Qed.

Lemma parse_questions_drops_other_blocks_witness :
  forallb well_shaped [three_options_block; next_four_options_block] = true /\
  contains Start [] = false /\
  concat (map render [three_options_block; next_four_options_block]) ++ []
  = three_options_text ++ newline ++ four_options_text /\
  parse_questions
    (concat (map render [three_options_block; next_four_options_block]) ++ [])
  = Ok [record_of next_four_options_block].
Proof.
  split; [reflexivity|]. split; [reflexivity|]. split; [reflexivity|].
  apply (parse_questions_drops_other_blocks
           [three_options_block; next_four_options_block] []); reflexivity.
Defined.

(** X5.  In every record of [parse_questions] the question is stripped,
    every option is tidy -- not empty, no white space at either end -- and
    is one line, and the index is between 0 and 9. *)
Theorem parse_questions_records_tidy (text : str) :
  exists records,
    parse_questions text = Ok records /\
    Forall (fun r =>
              strip (question r) = question r /\
              Forall (fun o => tidy o = true /\ single_line o = true)
                (options r) /\
              (0 <= correctOptionIndex r <= 9)%Z)
      records.
Proof.
  destruct (questions_per_match text) as (per_match & Hp & H).
  exists (concat per_match); split; [assumption|]. clear Hp.
  induction H as [|m r ms rs Hm _ IH]; [constructor|].
  simpl. apply Forall_app; split; [|assumption].
  destruct Hm as (g1 & g2 & d & _ & Hd & ->).
  destruct (List.length (option_lines (strip g2)) =? 4);
    constructor; [|constructor].
  simpl. split; [apply strip_strip|]. split; [apply option_lines_tidy|].
  destruct (decimal_value d Hd) as (v & Hv & Hle & _).
  unfold digit_value. rewrite Hv. lia.
Qed.

(** X6.  Every question that [parse_true_false_binary] or
    [parse_open_questions] returns is stripped: it is empty or tidy. *)
Theorem true_false_and_open_questions_stripped (text : str) :
  (exists records,
      parse_true_false_binary text = Ok records /\
      Forall (fun r => tf_question r = [] \/ tidy (tf_question r) = true)
        records)
  /\ (exists questions,
         parse_open_questions text = Ok questions /\
         Forall (fun q => q = [] \/ tidy q = true) questions).
Proof.
  split.
  - destruct (true_false_per_match text) as (records & Hp & H).
    exists records; split; [assumption|]. clear Hp.
    induction H as [|m r ms rs Hm _ IH]; constructor; [|assumption].
    destruct Hm as (g1 & a & _ & _ & -> & _). apply strip_shape.
  - eexists; split; [apply open_per_fragment|].
    apply Forall_forall. intros q Hq.
    apply in_map_iff in Hq as (part & <- & _). apply strip_shape.
Qed.

(* ================================================================== *)
(** ** More about the requester and the endpoints                       *)
(* ================================================================== *)

(** X7.  The log of [request_ai] follows its calls: the [InfoTrying]
    records name the models called, in the order of the calls; every call
    adds two records, the second one telling how the call ended; and the
    warning that no model answered is logged exactly when the record
    returned holds no model. *)
Theorem request_ai_log (RT : Runtime) (prompt : str) (w : World) :
  let r := fst (request_ai prompt (initial w)) in
  let st := snd (request_ai prompt (initial w)) in
  tried (logged st) = map called_model (attempts st) /\
  List.length (logged st)
  = 2 * List.length (attempts st)
    + match model r with Some _ => 0 | None => 1 end /\
  (List.In WarningNoModel (logged st) <-> model r = None).
Proof.
  intros r st. subst r st. unfold request_ai.
  destruct (request_loop_log top_models prompt (initial w))
    as (new & newlog & Hnew & Hlog & Ht & Hl & Hin & _).
  change (attempts (initial w) ++ new) with new in Hnew.
  change (logged (initial w) ++ newlog) with newlog in Hlog.
  rewrite Hnew, Hlog. auto.
Qed.

(** X8.  The record of [request_ai] is of one of two kinds.  With a model:
    the model is one of [top_models], there is a time, and the content is
    stripped.  Without a model: there is no time and the content is the
    text [no_answer]. *)
Theorem request_ai_record_shape (RT : Runtime) (prompt : str) (w : World) :
  let r := fst (request_ai prompt (initial w)) in
  match model r with
  | Some m =>
      List.In m top_models /\ strip (content r) = content r /\
      exists t, time r = Some t
  | None => content r = no_answer /\ time r = None
  end.
Proof.
  intros r. subst r. unfold request_ai.
  destruct (request_loop_outcome top_models prompt (initial w))
    as (new & _ & _ & H).
  destruct (request_loop_log top_models prompt (initial w))
    as (_ & _ & _ & _ & _ & _ & _ & Htime).
  destruct H as [(before & a & raw & others & rest & _ & _ & Htop & _ & Hm
                  & Hc)
                | (_ & _ & Hr)].
  - rewrite Hm in *. split; [|split].
    + rewrite Htop. apply in_or_app. right. now left.
    + rewrite Hc. apply strip_strip.
    + destruct (time (fst (request_loop top_models prompt (initial w))))
        as [t|]; [now exists t|].
      destruct Htime as [Htime _]. specialize (Htime eq_refl). discriminate.
  - rewrite Hr. simpl. now split.
Qed.

Lemma seq_ret_fst {RT : Runtime} {A B} (m : M A) (g : A -> B) (st : state) :
  fst (seq m (fun x => ret (g x)) st) = g (fst (m st)).
Proof. unfold seq, ret. now destruct (m st). Qed.

Lemma seq_ret_snd {RT : Runtime} {A B} (m : M A) (g : A -> B) (st : state) :
  snd (seq m (fun x => ret (g x)) st) = snd (m st).
Proof. unfold seq, ret. now destruct (m st). Qed.

(* ================================================================== *)
(** ** Facts about trimming, calls and encodable text                   *)
(* ================================================================== *)

Module EndpointFacts.

Lemma strip_trimmed (s : str) : trimmed s (strip s).
Proof.
  split; [|apply strip_shape].
  unfold strip.
  destruct (lstrip_suffix s) as (w1 & E1 & H1).
  destruct (rstrip_prefix (lstrip s)) as (w2 & E2 & H2).
  exists w1, w2. rewrite <- E2. auto.
Qed.

Lemma failed_returned_content {RT : Runtime} (a : attempt) :
  failed a <-> returned_content a = None.
Proof.
  unfold failed, succeeded, returned_content, stripped_content.
  destruct (ended a) as [[[|[c|] cs]]| |]; simpl; split; congruence.
Qed.

(** *** The characters of what the parsers return *)

Lemma encodable_incl (s t : str) :
  incl s t -> encodable t = true -> encodable s = true.
Proof.
  unfold encodable. intros Hin Ht. apply negb_true_iff in Ht.
  apply negb_true_iff. destruct (existsb is_surrogate s) eqn:E; [|reflexivity].
  apply existsb_exists in E as (c & Hc & Hs).
  rewrite <- Ht. symmetry. apply existsb_exists. exists c. auto.
Qed.

Lemma incl_strip (s : str) : incl (strip s) s.
Proof.
  destruct (strip_infix s) as (a & b & E). rewrite E at 2.
  apply incl_appr, incl_appl, incl_refl.
Qed.

Lemma matches_groups_incl (pat : pattern) (taken : str) (groups : list str) :
  matches pat taken groups -> Forall (fun g => incl g taken) groups.
Proof.
  induction 1 as [|a pat w t gs _ _ IH|a pat w t gs _ _ IH].
  - constructor.
  - eapply Forall_impl; [|exact IH]. intros g Hg. now apply incl_appr.
  - constructor; [apply incl_appl, incl_refl|].
    eapply Forall_impl; [|exact IH]. intros g Hg. now apply incl_appr.
Qed.

Lemma findall_groups_incl (c : char) (l : str) (pat : pattern) (s : str) :
  Forall (fun groups => Forall (fun g => incl g s) groups)
    (findall (Plain (Literal (c :: l)) :: pat) s).
Proof.
  apply (@findall_ind c l pat
    (fun t ms => Forall (fun groups => Forall (fun g => incl g t) groups) ms)).
  - constructor.
  - intros t g rest ms E IH.
    apply search_sound in E as (before & taken & -> & Hm).
    constructor.
    + eapply Forall_impl; [|exact (matches_groups_incl Hm)].
      intros x Hx. apply incl_appr, incl_appl. exact Hx.
    + eapply Forall_impl; [|exact IH]. intros gs Hgs.
      eapply Forall_impl; [|exact Hgs].
      intros x Hx. apply incl_appr, incl_appr. exact Hx.
Qed.

Lemma splitlines_from_incl (n : nat) (t s cur : str) :
  List.length s <= n -> incl cur t -> incl s t ->
  Forall (fun line => incl line t) (splitlines_from cur s).
Proof.
  revert s cur; induction n as [|n IH]; intros s cur Hn Hcur Hs.
  - destruct s; [|simpl in Hn; lia]. simpl.
    destruct cur; repeat constructor. exact Hcur.
  - destruct s as [|c s]; simpl.
    + destruct cur; repeat constructor. exact Hcur.
    + simpl in Hn.
      assert (Hs' : incl s t) by (intros x Hx; apply Hs; now right).
      assert (Hnil : incl (@nil char) t) by (intros x []).
      destruct (islinebreak c).
      * constructor; [exact Hcur|].
        destruct (char_eqb c 13%N); [|apply IH; auto; lia].
        destruct s as [|c' s']; [apply IH; auto; simpl; lia|].
        assert (Hs'' : incl s' t) by (intros x Hx; apply Hs'; now right).
        destruct (char_eqb c' 10%N); apply IH; auto; simpl in *; lia.
      * apply IH; auto; [lia|].
        apply incl_app; [exact Hcur|]. intros x [<- | []]. apply Hs. now left.
Qed.

Lemma option_lines_incl (t : str) :
  Forall (fun o => incl o t) (option_lines t).
Proof.
  unfold option_lines. apply Forall_forall. intros o Ho.
  apply in_map_iff in Ho as (x & <- & Hx).
  apply filter_In in Hx as [Hin _].
  pose proof (@splitlines_from_incl (List.length t) t t []
                (le_n _) ltac:(intros y []) (incl_refl t)) as H.
  rewrite Forall_forall in H. specialize (H x Hin).
  eapply incl_tran; [apply incl_strip | exact H].
Qed.

Lemma split_parts_incl (sep s : str) :
  sep <> [] ->
  Forall (fun part => incl part s) (split_loop (List.length s) sep s).
Proof.
  intros Hne.
  apply (@split_ind sep
    (fun t parts => Forall (fun part => incl part t) parts) Hne).
  - intros t _. constructor; [apply incl_refl | constructor].
  - intros t i parts _ IH. constructor.
    + rewrite <- (firstn_skipn i t) at 2. apply incl_appl, incl_refl.
    + eapply Forall_impl; [|exact IH]. intros x Hx.
      eapply incl_tran; [exact Hx|].
      rewrite <- (firstn_skipn (i + List.length sep) t) at 2.
      apply incl_appr, incl_refl.
Qed.

Lemma open_piece_incl (part : str) : incl (open_piece part) part.
Proof.
  unfold open_piece. eapply incl_tran; [apply incl_strip|].
  destruct (find End_ part) as [i|]; [|apply incl_refl].
  rewrite <- (firstn_skipn i part) at 2. apply incl_appl, incl_refl.
Qed.

Lemma Forall2_with {A B} (P : A -> B -> Prop) (Q : A -> Prop)
  (l : list A) (l' : list B) :
  Forall2 P l l' -> Forall Q l -> Forall2 (fun x y => P x y /\ Q x) l l'.
Proof.
  induction 1 as [|x y l l' Hxy _ IH]; intros HQ; constructor;
    inversion HQ; subst; auto.
Qed.

(** On an encodable text, every string of the records of
    [parse_questions] is encodable. *)
Lemma parse_questions_encodable (text : str) :
  exists records,
    parse_questions text = Ok records /\
    (encodable text = true ->
     forallb encodable (concat (map multiple_choice_strings records)) = true).
Proof.
  destruct (questions_per_match text) as (per_match & Hp & H).
  exists (concat per_match); split; [assumption|]. intros Henc.
  apply (Forall2_with (Q := fun groups => Forall (fun g => incl g text) groups))
    in H; [|exact (@findall_groups_incl 83%N (lit "tart:") _ text)].
  clear Hp. induction H as [|m r ms rs [Hm Hg] _ IH]; [reflexivity|].
  simpl. rewrite map_app, concat_app, forallb_app, IH, andb_true_r.
  destruct Hm as (g1 & g2 & d & -> & _ & ->).
  destruct (List.length (option_lines (strip g2)) =? 4); [|reflexivity].
  inversion Hg as [|? ? Hg1 Hg']; subst. inversion Hg' as [|? ? Hg2 _]; subst.
  simpl. rewrite app_nil_r. apply andb_true_iff; split.
  - apply (encodable_incl (t := text)); [|assumption].
    eapply incl_tran; [apply incl_strip | exact Hg1].
  - apply forallb_forall. intros o Ho.
    pose proof (option_lines_incl (strip g2)) as Hl.
    rewrite Forall_forall in Hl. specialize (Hl o Ho).
    apply (encodable_incl (t := text)); [|assumption].
    eapply incl_tran; [exact Hl|].
    eapply incl_tran; [apply incl_strip | exact Hg2].
Qed.

Lemma parse_true_false_binary_encodable (text : str) :
  exists records,
    parse_true_false_binary text = Ok records /\
    (encodable text = true ->
     forallb encodable (concat (map true_false_strings records)) = true).
Proof.
  destruct (true_false_per_match text) as (records & Hp & H).
  exists records; split; [assumption|]. intros Henc.
  apply (Forall2_with (Q := fun groups => Forall (fun g => incl g text) groups))
    in H; [|exact (@findall_groups_incl 83%N (lit "tart:") _ text)].
  clear Hp. induction H as [|m r ms rs [Hm Hg] _ IH]; [reflexivity|].
  simpl. rewrite IH, andb_true_r.
  destruct Hm as (g1 & a & -> & _ & -> & _).
  inversion Hg as [|? ? Hg1 _]; subst.
  apply (encodable_incl (t := text)); [|assumption].
  eapply incl_tran; [apply incl_strip | exact Hg1].
Qed.

Lemma parse_open_questions_encodable (text : str) :
  exists questions,
    parse_open_questions text = Ok questions /\
    (encodable text = true -> forallb encodable questions = true).
Proof.
  eexists; split; [apply open_per_fragment|]. intros Henc.
  fold open_piece. apply forallb_forall. intros q Hq.
  apply in_map_iff in Hq as (part & <- & Hpart).
  pose proof (@split_parts_incl Start text Start_not_nil) as H.
  rewrite Forall_forall in H.
  assert (Hin : List.In part (split_loop (List.length text) Start text))
    by (destruct (split_loop (List.length text) Start text);
        [contradiction | now right]).
  apply (encodable_incl (t := text)); [|assumption].
  eapply incl_tran; [apply open_piece_incl | exact (H part Hin)].
Qed.

(** *** The model of a record is encodable *)

Lemma top_models_encodable : forallb encodable top_models = true.
Proof. vm_compute. reflexivity. Qed.

Lemma model_strings_encodable {RT : Runtime} (prompt : str) (w : World) :
  forallb encodable
    (model_strings (model (fst (request_ai prompt (initial w))))) = true.
Proof.
  unfold request_ai.
  destruct (request_loop_outcome top_models prompt (initial w))
    as (new & _ & _ & H).
  destruct H as [(before & a & raw & others & rest & _ & _ & Htop & _ & Hm & _)
                | (_ & _ & Hr)].
  - rewrite Hm. simpl. rewrite andb_true_r.
    pose proof top_models_encodable as Ht. rewrite forallb_forall in Ht.
    apply Ht. rewrite Htop. apply in_or_app. right. now left.
  - rewrite Hr. reflexivity.
Qed.

End EndpointFacts.

Import EndpointFacts.

(* ================================================================== *)
(** ** The requester, call by call                                      *)
(* ================================================================== *)

(** C1.  For every prompt, [request_ai] calls the models of the list
    [top_models] -- seventeen models, none of them twice -- in the order of
    the list and with that prompt, one call per model.  Either the calls
    end with the first one that returned a content: no call before it
    returned one, the models behind it in the list are not called, and the
    record returned holds the model of that call and its content without
    the white space at its two ends.  Or every model of the list was
    called, no call returned a content, and the record holds no model.
    With a provider whose first four calls time out, return no choice,
    return a choice without content and raise, and whose later calls
    return ["  ok\n"], five models are called and the record holds the
    fifth model, [gpt-4.5], and the content ["ok"]. *)
Theorem request_ai_first_success :
  (forall (RT : Runtime) (prompt : str) (w : World),
      let r := fst (request_ai prompt (initial w)) in
      let calls := attempts (snd (request_ai prompt (initial w))) in
      List.length top_models = 17 /\ NoDup top_models /\
      Forall (fun a => called_prompt a = prompt) calls /\
      ((exists before a raw not_called,
           calls = before ++ [a] /\
           Forall (fun b => returned_content b = None) before /\
           top_models
           = map called_model before ++ called_model a :: not_called /\
           returned_content a = Some raw /\
           model r = Some (called_model a) /\
           content r = strip raw /\ trimmed raw (content r))
       \/ (map called_model calls = top_models /\
           Forall (fun b => returned_content b = None) calls /\
           model r = None)))
  /\ (map called_model
        (attempts (snd (@request_ai flaky_provider (lit "pytanie")
                          flaky_start)))
      = [lit "gpt-4"; lit "gpt-4.1"; lit "gpt-4.1-mini"; lit "gpt-4.1-nano";
         lit "gpt-4.5"]
      /\ map returned_content
           (attempts (snd (@request_ai flaky_provider (lit "pytanie")
                             flaky_start)))
         = [None; None; None; None; Some (lit "  ok" ++ newline)]
      /\ model (fst (@request_ai flaky_provider (lit "pytanie") flaky_start))
         = Some (lit "gpt-4.5")
      /\ content (fst (@request_ai flaky_provider (lit "pytanie") flaky_start))
         = lit "ok").
Proof.
  split; [|repeat split; vm_compute; reflexivity].
  intros RT prompt w r calls. subst r calls. unfold request_ai.
  destruct (request_loop_outcome top_models prompt (initial w))
    as (new & Hnew & Hp & H).
  change (attempts (initial w) ++ new) with new in Hnew. rewrite Hnew.
  split; [reflexivity|]. split; [exact top_models_NoDup|].
  split; [assumption|].
  destruct H as [(before & a & raw & others & rest & -> & Hb & Htop & Ha & Hm
                  & Hc)
                | (Hm & Hall & Hr)].
  - left. exists before, a, raw, rest.
    split; [reflexivity|]. split.
    { eapply Forall_impl; [|exact Hb].
      intros b Hf. now apply failed_returned_content. }
    split; [exact Htop|]. split.
    { unfold returned_content. now rewrite Ha. }
    split; [exact Hm|]. split; [exact Hc|].
    rewrite Hc. apply strip_trimmed.
  - right. split; [exact Hm|]. split.
    { eapply Forall_impl; [|exact Hall].
      intros b Hf. now apply failed_returned_content. }
    rewrite Hr. reflexivity.
Qed.

(* ================================================================== *)
(** ** The true/false parser, match by match                            *)
(* ================================================================== *)

(** C7.  [parse_true_false_binary] returns one record per match of its
    pattern, in order: the question is the first group without the white
    space at its two ends, and the answer is the second group as an
    integer.  The second group is ["1"], and the answer is 1, or it is
    ["0"], and the answer is 0; so every answer is 1 or 0.  On
    ["Start: Is Earth round? End: answerStart: 1 answerEnd:"] the result is
    the one record with that question and answer 1, and with [0] in the
    place of [1] the answer is 0. *)
Theorem parse_true_false_binary_records (text : str) :
  (exists records : list TrueFalse,
      parse_true_false_binary text = Ok records /\
      Forall2
        (fun match_ r =>
           exists g1 a,
             match_ = [g1; a] /\ (a = lit "1" \/ a = lit "0") /\
             tf_question r = strip g1 /\ int a = Ok (answer r) /\
             trimmed g1 (tf_question r) /\
             ((a = lit "1" /\ answer r = 1%Z)
              \/ (a = lit "0" /\ answer r = 0%Z)))
        (findall true_false_pattern text) records /\
      Forall (fun r => answer r = 0 \/ answer r = 1)%Z records)
  /\ parse_true_false_binary
       (lit "Start: Is Earth round? End: answerStart: 1 answerEnd:")
     = Ok [ {| tf_question := lit "Is Earth round?"; answer := 1 |} ]
  /\ parse_true_false_binary
       (lit "Start: Is Earth round? End: answerStart: 0 answerEnd:")
     = Ok [ {| tf_question := lit "Is Earth round?"; answer := 0 |} ]
  /\ parse_true_false_binary
       (lit "Start: A End: answerStart: 0 answerEnd: Start: B End: answerStart: 1 answerEnd:")
     = Ok [ {| tf_question := lit "A"; answer := 0 |};
            {| tf_question := lit "B"; answer := 1 |} ].
Proof.
  split; [|repeat split; vm_compute; reflexivity].
  destruct (true_false_per_match text) as (records & Hp & H).
  exists records; split; [assumption|]; split.
  - eapply Forall2_impl; [|exact H].
    intros m r (g1 & a & -> & Ha & Hq & Hi & _). exists g1, a.
    split; [reflexivity|]. split; [exact Ha|]. split; [exact Hq|].
    split; [exact Hi|]. split; [rewrite Hq; apply strip_trimmed|].
    destruct Ha as [-> | ->]; [left | right]; (split; [reflexivity|]).
    + change (int (lit "1")) with (@Ok Z 1%Z) in Hi. congruence.
    + change (int (lit "0")) with (@Ok Z 0%Z) in Hi. congruence.
  - clear Hp. induction H as [|m r ms rs Hm _ IH]; constructor; auto.
    destruct Hm as (g1 & a & _ & _ & _ & _ & Hv). tauto.
Qed.

(* ================================================================== *)
(** ** The endpoints                                                    *)
(* ================================================================== *)

(** What an endpoint makes of a run of [request_ai] that a call answered. *)
Lemma endpoint_answered {RT : Runtime} {Q} (prompt : str)
  (parse : str -> res (list Q)) (strings : list Q -> list str) (w : World)
  (before : list attempt) (a : attempt) (raw : str)
  (others : list (option str)) :
  (forall text, exists questions,
      parse text = Ok questions /\
      (encodable text = true -> forallb encodable (strings questions) = true)) ->
  attempts (snd (request_ai prompt (initial w))) = before ++ [a] ->
  ended a = Returned {| choices := Some raw :: others |} ->
  exists questions,
    parse (strip raw) = Ok questions /\
    (questions' <- parse (content (fst (request_ai prompt (initial w)))) ;;
     JSONResponse
       (model_strings (model (fst (request_ai prompt (initial w))))
        ++ strings questions')
       {| response_model := model (fst (request_ai prompt (initial w)));
          response_questions := questions' |})
    = (if forallb encodable (strings questions)
       then Ok {| response_model := Some (called_model a);
                  response_questions := questions |}
       else Raise UnicodeEncodeError)
    /\ (encodable raw = true -> forallb encodable (strings questions) = true).
Proof.
  intros Htotal Hatt Ha.
  pose proof (model_strings_encodable prompt w) as Hmodel.
  destruct (@request_ai_answered RT prompt w before a raw others Hatt Ha)
    as [Hm Hc].
  rewrite Hc. destruct (Htotal (strip raw)) as (questions & Hq & Henc).
  exists questions. split; [exact Hq|]. split.
  - rewrite Hq. cbn [bind]. unfold JSONResponse.
    rewrite forallb_app, Hmodel, Hm. reflexivity.
  - intros Hraw. apply Henc.
    apply (encodable_incl (t := raw)); [apply incl_strip | assumption].
Qed.

(** X9.  When the last call of [request_ai] returned a content, each of
    [/chatABCD], [/chatTRUEFALSE] and [/chatOPEN] applies its parser to the
    content, stripped.  It answers with the model of that call and the
    questions found when every string of the questions is encodable --
    which is so when the content holds no surrogate -- and ends in
    [UnicodeEncodeError] otherwise, as [/chatOPEN] does on the reply
    ["Start: \ud800 End:"]. *)
Theorem chat_endpoints_answer :
  (forall (RT : Runtime) (w : World),
      (forall before a raw others,
          attempts (snd (chat (initial w))) = before ++ [a] ->
          ended a = Returned {| choices := Some raw :: others |} ->
          exists questions,
            parse_questions (strip raw) = Ok questions /\
            fst (chat (initial w))
            = (if forallb encodable
                    (concat (map multiple_choice_strings questions))
               then Ok {| response_model := Some (called_model a);
                          response_questions := questions |}
               else Raise UnicodeEncodeError) /\
            (encodable raw = true ->
             fst (chat (initial w))
             = Ok {| response_model := Some (called_model a);
                     response_questions := questions |}))
      /\ (forall before a raw others,
             attempts (snd (chat_true_false (initial w))) = before ++ [a] ->
             ended a = Returned {| choices := Some raw :: others |} ->
             exists questions,
               parse_true_false_binary (strip raw) = Ok questions /\
               fst (chat_true_false (initial w))
               = (if forallb encodable
                       (concat (map true_false_strings questions))
                  then Ok {| response_model := Some (called_model a);
                             response_questions := questions |}
                  else Raise UnicodeEncodeError) /\
               (encodable raw = true ->
                fst (chat_true_false (initial w))
                = Ok {| response_model := Some (called_model a);
                        response_questions := questions |}))
      /\ (forall before a raw others,
             attempts (snd (chat_open (initial w))) = before ++ [a] ->
             ended a = Returned {| choices := Some raw :: others |} ->
             exists questions,
               parse_open_questions (strip raw) = Ok questions /\
               fst (chat_open (initial w))
               = (if forallb encodable questions
                  then Ok {| response_model := Some (called_model a);
                             response_questions := questions |}
                  else Raise UnicodeEncodeError) /\
               (encodable raw = true ->
                fst (chat_open (initial w))
                = Ok {| response_model := Some (called_model a);
                        response_questions := questions |})))
  /\ parse_open_questions (strip surrogate_reply) = Ok [[55296%N]]
  /\ fst (@chat_open surrogate_provider surrogate_start)
     = Raise UnicodeEncodeError.
Proof.
  split; [|split; vm_compute; reflexivity].
  intros RT w. unfold chat, chat_true_false, chat_open.
  split; [|split]; intros before a raw others Hatt Ha;
    rewrite seq_ret_snd in Hatt; rewrite seq_ret_fst.
  - destruct (@endpoint_answered RT _ prompt_question parse_questions
                (fun qs => concat (map multiple_choice_strings qs))
                w before a raw others parse_questions_encodable Hatt Ha)
      as (questions & Hq & Hr & Henc).
    exists questions. split; [exact Hq|]. split; [exact Hr|].
    intros Hraw. rewrite Hr, (Henc Hraw). reflexivity.
  - destruct (@endpoint_answered RT _ prompt_true_false_binary
                parse_true_false_binary
                (fun qs => concat (map true_false_strings qs))
                w before a raw others parse_true_false_binary_encodable
                Hatt Ha)
      as (questions & Hq & Hr & Henc).
    exists questions. split; [exact Hq|]. split; [exact Hr|].
    intros Hraw. rewrite Hr, (Henc Hraw). reflexivity.
  - destruct (@endpoint_answered RT _ prompt_open parse_open_questions
                (fun qs => qs)
                w before a raw others parse_open_questions_encodable Hatt Ha)
      as (questions & Hq & Hr & Henc).
    exists questions. split; [exact Hq|]. split; [exact Hr|].
    intros Hraw. rewrite Hr, (Henc Hraw). reflexivity.
Qed.

Lemma chat_endpoints_answer_witness :
  (exists questions,
      parse_questions (strip (newline ++ four_options_text ++ newline))
      = Ok questions /\
      fst (@chat answering_provider answering_start)
      = Ok {| response_model := Some (lit "gpt-4");
              response_questions := questions |})
  /\ (exists questions,
         parse_true_false_binary
           (strip (newline ++ four_options_text ++ newline))
         = Ok questions /\
         fst (@chat_true_false answering_provider answering_start)
         = Ok {| response_model := Some (lit "gpt-4");
                 response_questions := questions |})
  /\ (exists questions,
         parse_open_questions
           (strip (newline ++ four_options_text ++ newline))
         = Ok questions /\
         fst (@chat_open answering_provider answering_start)
         = Ok {| response_model := Some (lit "gpt-4");
                 response_questions := questions |}).
Proof.
  pose proof (proj1 chat_endpoints_answer answering_provider
                (tt : @World answering_provider)) as (H1 & H2 & H3).
  split; [|split].
  - destruct (H1 [] {| called_model := lit "gpt-4";
                       called_prompt := prompt_question;
                       ended := Returned
                         {| choices := [Some (newline ++ four_options_text
                                              ++ newline)] |} |}
                (newline ++ four_options_text ++ newline) []
                eq_refl eq_refl) as (questions & Hq & _ & Hr).
    exists questions. split; [exact Hq | exact (Hr eq_refl)].
  - destruct (H2 [] {| called_model := lit "gpt-4";
                       called_prompt := prompt_true_false_binary;
                       ended := Returned
                         {| choices := [Some (newline ++ four_options_text
                                              ++ newline)] |} |}
                (newline ++ four_options_text ++ newline) []
                eq_refl eq_refl) as (questions & Hq & _ & Hr).
    exists questions. split; [exact Hq | exact (Hr eq_refl)].
  - destruct (H3 [] {| called_model := lit "gpt-4";
                       called_prompt := prompt_open;
                       ended := Returned
                         {| choices := [Some (newline ++ four_options_text
                                              ++ newline)] |} |}
                (newline ++ four_options_text ++ newline) []
                eq_refl eq_refl) as (questions & Hq & _ & Hr).
    exists questions. split; [exact Hq | exact (Hr eq_refl)].
Defined.

(** X10.  When every call of [request_ai] failed, each of [/chatABCD],
    [/chatTRUEFALSE] and [/chatOPEN] answers with no model and an empty
    list of questions; none ends in an exception. *)
Theorem chat_endpoints_no_answer (RT : Runtime) (w : World) :
  (Forall failed (attempts (snd (chat (initial w)))) ->
   fst (chat (initial w))
   = Ok {| response_model := None; response_questions := [] |})
  /\ (Forall failed (attempts (snd (chat_true_false (initial w)))) ->
      fst (chat_true_false (initial w))
      = Ok {| response_model := None; response_questions := [] |})
  /\ (Forall failed (attempts (snd (chat_open (initial w)))) ->
      fst (chat_open (initial w))
      = Ok {| response_model := None; response_questions := [] |}).
Proof.
  unfold chat, chat_true_false, chat_open.
  repeat split; intros Hall; rewrite seq_ret_snd in Hall;
    rewrite seq_ret_fst; rewrite (@request_ai_unanswered RT _ w Hall);
    vm_compute; reflexivity.
Qed.

Lemma chat_endpoints_no_answer_witness :
  fst (@chat silent_provider silent_start)
  = Ok {| response_model := None; response_questions := [] |}
  /\ fst (@chat_true_false silent_provider silent_start)
     = Ok {| response_model := None; response_questions := [] |}
  /\ fst (@chat_open silent_provider silent_start)
     = Ok {| response_model := None; response_questions := [] |}.
Proof.
  pose proof (@chat_endpoints_no_answer silent_provider
                (tt : @World silent_provider)) as (H1 & H2 & H3).
  split; [|split]; [apply H1 | apply H2 | apply H3];
    vm_compute; repeat constructor.
Defined.

(** X11.  [/verify_OPEN] hands [request_ai] one prompt, the same for every
    model called, that holds the question and the answer of the request as
    they are, between fixed texts.  It answers with the record of
    [request_ai] when the content of the record is encodable, and ends in
    [UnicodeEncodeError] when the content holds a surrogate, as on the
    reply ["Start: \ud800 End:"].  Two requests whose questions hold no
    double quote and that give the same prompt are the same request; with
    a double quote in the question this fails: [forged_request] and
    [plain_request] differ and give the same prompt. *)
Theorem verify_OPEN_prompt_ambiguous :
  (forall r1 r2,
      has_quote (vo_question r1) = false ->
      has_quote (vo_question r2) = false ->
      verify_OPEN_prompt r1 = verify_OPEN_prompt r2 -> r1 = r2)
  /\ (forged_request <> plain_request /\
      verify_OPEN_prompt forged_request = verify_OPEN_prompt plain_request)
  /\ (forall (RT : Runtime) (request : VerifyOpenRequest) (w : World),
         Forall (fun a => called_prompt a = verify_OPEN_prompt request)
           (attempts (snd (verify_OPEN request (initial w))))
         /\ fst (verify_OPEN request (initial w))
            = (if encodable
                    (content (fst (request_ai (verify_OPEN_prompt request)
                                     (initial w))))
               then Ok {| verify := fst (request_ai
                                           (verify_OPEN_prompt request)
                                           (initial w)) |}
               else Raise UnicodeEncodeError))
  /\ (content (fst (@request_ai surrogate_provider
                      (verify_OPEN_prompt plain_request) surrogate_start))
      = surrogate_reply
      /\ fst (@verify_OPEN surrogate_provider plain_request surrogate_start)
         = Raise UnicodeEncodeError).
Proof.
  split; [|split; [|split]].
  - intros [q1 u1] [q2 u2]; unfold verify_OPEN_prompt;
      cbn [vo_question userAnswer]; intros H1 H2 E.
    apply app_inv_head in E.
    change (q1 ++ quote :: tl verify_OPEN_middle ++ u1 ++ verify_OPEN_tail
            = q2 ++ quote :: tl verify_OPEN_middle ++ u2 ++ verify_OPEN_tail)
      in E.
    apply cut_at_quote in E as [-> E]; try assumption.
    apply app_inv_head in E. apply app_inv_tail in E. now subst.
  - split; [|vm_compute; reflexivity].
    intros E. apply (f_equal (fun r => List.length (userAnswer r))) in E.
    vm_compute in E. discriminate.
  - intros RT request w. unfold verify_OPEN.
    rewrite seq_ret_snd, seq_ret_fst. split.
    + unfold request_ai.
      destruct (request_loop_outcome top_models (verify_OPEN_prompt request)
                  (initial w)) as (new & Hnew & Hp & _).
      change (attempts (initial w) ++ new) with new in Hnew.
      now rewrite Hnew.
    + pose proof (model_strings_encodable (verify_OPEN_prompt request) w)
        as Hmodel.
      revert Hmodel.
      generalize (fst (request_ai (verify_OPEN_prompt request) (initial w))).
      intros r Hmodel. unfold JSONResponse.
      rewrite forallb_app, Hmodel. cbn [forallb andb].
      now rewrite andb_true_r.
  - split; vm_compute; reflexivity.
Qed.

Lemma verify_OPEN_prompt_ambiguous_witness :
  has_quote (vo_question plain_request) = false /\
  plain_request = plain_request.
Proof.
  split; [reflexivity|].
  apply (proj1 verify_OPEN_prompt_ambiguous plain_request plain_request);
    reflexivity.
Defined.
